(** * django_psycopg2_pool.gevent.psycopg2_pool: the connection pool and its
      transactional checkout protocol

    A shallow embedding of [DatabaseConnectionPool] (Python 2, gevent).

    The pool object is a record with the fields of the class.  psycopg2
    connections are external objects: they are referred to by identity
    ([conn_id]) and everything they do is given by a [Driver] interface acting
    on an abstract driver state, so that two references to the same
    connection see the same object.  Python code is a state-and-exception
    computation over a [World]; a blocking [Queue.get()] on an empty queue is
    the third outcome [Blocked].  One task is modelled, run without
    interleaving: nobody else refills the queue, and a driver call returns
    or raises before anything else happens.  A bare [raise] re-raises the
    exception its [except:] clause caught: [_rollback] and [closeall] handle
    their own exceptions in their own frames, and Python 2 restores the
    caller's exception when they return.

    The world also keeps the list of calls the pool made on the driver, in
    order, which is what "calls commit() exactly once" and the like are
    stated on. *)

From Stdlib Require Import ZArith List Bool Lia String Relations.
Import ListNotations.
Local Open Scope Z_scope.

(** ** Python values, exceptions, outcomes *)

Definition conn_id := nat.
Definition cursor_id := nat.

(** The values that can be passed as [maxsize].  [bool] is a subclass of
    [int] in Python. *)
Inductive pyval : Type :=
| PyInt (n : Z)
| PyLong (n : Z)
| PyBool (b : bool)
| PyNone
| PyFloat (mantissa exponent : Z)
| PyStr (s : string).

(** [isinstance(v, (int, long))] *)
Definition isinstance_int_long (v : pyval) : bool :=
  match v with
  | PyInt _ | PyLong _ | PyBool _ => true
  | PyNone | PyFloat _ _ | PyStr _ => false
  end.

(** The number an integer object stands for in [self.size >= self.maxsize]. *)
Definition int_value (v : pyval) : Z :=
  match v with
  | PyInt n | PyLong n => n
  | PyBool b => if b then 1 else 0
  | PyNone | PyFloat _ _ | PyStr _ => 0
  end.

Inductive exn : Type :=
| TypeError (got : pyval)            (* 'Expected integer, got %r' % (maxsize, ) *)
| OperationalError (conn : conn_id)  (* "Cannot commit because connection was closed: %r" % (conn, ) *)
| Error (code : nat)                 (* any other instance of Exception *)
| Exit (code : nat).                 (* a BaseException that is no Exception:
                                        KeyboardInterrupt, SystemExit, GreenletExit *)

(** [isinstance(e, Exception)], what [except Exception:] catches; a bare
    [except:] catches every [exn]. *)
Definition is_Exception (e : exn) : bool :=
  match e with
  | Exit _ => false
  | TypeError _ | OperationalError _ | Error _ => true
  end.

Inductive result (A : Type) : Type :=
| Return (a : A)
| Raise (e : exn)
| Blocked.
Arguments Return {A} a.
Arguments Raise {A} e.
Arguments Blocked {A}.

(** ** The pool object *)

Record DatabaseConnectionPool : Type := mkPool {
  maxsize : Z;
  pool : list conn_id;      (* gevent.queue.Queue(): FIFO, unbounded *)
  size : Z;
  gets : Z;
  puts : Z
}.

(** [DatabaseConnectionPool.__init__(self, maxsize)]; a call without the
    argument is a call with [PyInt 100]. *)
Definition __init__ (maxsize : pyval) : exn + DatabaseConnectionPool :=
  if negb (isinstance_int_long maxsize) then inl (TypeError maxsize)
  else inr {| maxsize := int_value maxsize; pool := []; size := 0; gets := 0; puts := 0 |}.

(** [PostgresConnectionPool.__init__]: [maxsize = kwargs.pop('maxsize', None)];
    the other arguments are kept for the connection factory. *)
Definition PostgresConnectionPool__init__ (maxsize : option pyval)
  : exn + DatabaseConnectionPool :=
  __init__ (match maxsize with Some v => v | None => PyNone end).

(** ** The driver interface *)

(** What the pool asks of psycopg2 (and of [gevent.get_hub()]), in call order. *)
Inductive call : Type :=
| CallConnect                                   (* self.create_connection() *)
| CallSetIsolationLevel (conn : conn_id) (level : Z)
| CallCursor (conn : conn_id) (args : list pyval)
| CallCommit (conn : conn_id)
| CallRollback (conn : conn_id)
| CallClose (conn : conn_id)
| CallHandleError (conn : conn_id) (e : exn).   (* hub.handle_error(conn, *sys.exc_info()) *)

(** A connection exposes a [closed] attribute (read by truthiness), an
    [isolation_level] attribute and the methods below; each method either
    returns or raises, and changes the driver state [S] (sockets, server
    sessions, the connection objects themselves). *)
Class Driver (S : Type) : Type := {
  drv_connect : S -> (exn + conn_id) * S;
  drv_closed : conn_id -> S -> bool;
  drv_isolation_level : conn_id -> S -> Z;
  drv_set_isolation_level : conn_id -> Z -> S -> (exn + unit) * S;
  drv_cursor : conn_id -> list pyval -> S -> (exn + cursor_id) * S;
  drv_commit : conn_id -> S -> (exn + unit) * S;
  drv_rollback : conn_id -> S -> (exn + unit) * S;
  drv_close : conn_id -> S -> (exn + unit) * S
}.

Record World (S : Type) : Type := mkWorld {
  db : S;
  self : DatabaseConnectionPool;
  calls : list call
}.
Arguments mkWorld {S} db self calls.
Arguments db {S} w.
Arguments self {S} w.
Arguments calls {S} w.

Definition M (S A : Type) : Type := World S -> result A * World S.

Section Pool.

Context {S : Type} {drv : Driver S}.

Definition set_self (p : DatabaseConnectionPool) (w : World S) : World S :=
  mkWorld (db w) p (calls w).

Definition ret {A} (a : A) : M S A := fun w => (Return a, w).

Definition bind {A B} (m : M S A) (k : A -> M S B) : M S B := fun w =>
  match m w with
  | (Return a, w1) => k a w1
  | (Raise e, w1) => (Raise e, w1)
  | (Blocked, w1) => (Blocked, w1)
  end.

(** A method call on the driver: the call is recorded, the method returns
    or raises.  It never blocks. *)
Definition invoke {A} (c : call) (method : S -> (exn + A) * S) : M S A := fun w =>
  let '(r, s) := method (db w) in
  (match r with inl e => Raise e | inr a => Return a end,
   mkWorld s (self w) (calls w ++ [c])).

(** [gevent.get_hub().handle_error(conn, type, value, tb)]: reports the
    error (prints it) and returns. *)
Definition handle_error (context : conn_id) (e : exn) : M S unit := fun w =>
  (Return tt, mkWorld (db w) (self w) (calls w ++ [CallHandleError context e])).

(** [PostgresConnectionPool.create_connection] *)
Definition create_connection : M S conn_id := invoke CallConnect drv_connect.

(** [Queue.get()]: the oldest item, or the task blocks. *)
Definition queue_get : M S conn_id := fun w =>
  match pool (self w) with
  | item :: rest =>
      (Return item,
       set_self (mkPool (maxsize (self w)) rest (size (self w)) (gets (self w)) (puts (self w))) w)
  | [] => (Blocked, w)
  end.

(** [DatabaseConnectionPool.get] *)
Definition get : M S conn_id := fun w =>
  let p := self w in
  let w := set_self (mkPool (maxsize p) (pool p) (size p) (gets p + 1) (puts p)) w in
  let pool_size := Z.of_nat (List.length (pool p)) in
  if (maxsize p <=? size p) || negb (pool_size =? 0) then
    queue_get w
  else
    let p := self w in
    let w := set_self (mkPool (maxsize p) (pool p) (size p + 1) (gets p) (puts p)) w in
    match create_connection w with
    | (Return new_item, w) => (Return new_item, w)
    | (Raise e, w) =>
        let p := self w in
        (Raise e, set_self (mkPool (maxsize p) (pool p) (size p - 1) (gets p) (puts p)) w)
    | (Blocked, w) => (Blocked, w)
    end.

(** [DatabaseConnectionPool.put] *)
Definition put (item : conn_id) : M S unit := fun w =>
  let p := self w in
  (Return tt,
   set_self (mkPool (maxsize p) (pool p ++ [item]) (size p) (gets p) (puts p + 1)) w).

(** [DatabaseConnectionPool.closeall]: the loop runs once per queued item;
    [q] is the queue at the loop head. *)
Fixpoint closeall_loop (q : list conn_id) (w : World S) : result unit * World S :=
  match q with
  | [] => (Return tt, w)                                   (* self.pool.empty() *)
  | conn :: rest =>                                        (* self.pool.get_nowait() *)
      let p := self w in
      let w := set_self (mkPool (maxsize p) rest (size p) (gets p) (puts p)) w in
      match invoke (CallClose conn) (drv_close conn) w with
      | (Return _, w) => closeall_loop rest w
      | (Raise e, w) =>
          if is_Exception e then closeall_loop rest w      (* except Exception: pass *)
          else (Raise e, w)
      | (Blocked, w) => (Blocked, w)
      end
  end.

Definition closeall : M S unit := fun w => closeall_loop (pool (self w)) w.

(** [DatabaseConnectionPool._rollback]: the connection, or [None] when
    [rollback()] raised. *)
Definition _rollback (conn : conn_id) : M S (option conn_id) := fun w =>
  match invoke (CallRollback conn) (drv_rollback conn) w with
  | (Return _, w) => (Return (Some conn), w)
  | (Raise e, w) =>
      match handle_error conn e w with
      | (_, w) => (Return None, w)
      end
  | (Blocked, w) => (Blocked, w)
  end.

(** *** The transaction scope

    [connection] and [cursor] are generator context managers; a caller runs
    [with pool.connection(level) as conn: body].  The definitions below give
    the whole [with] statement: the generator up to its [yield], the body,
    and the generator's [except] / [else] / [finally] clauses.  The pieces
    shared by the two methods are named after the clause they come from. *)

(** Lines 74-76: the value of the local variable [isolation_level] once the
    requested level has been compared with the connection's. *)
Definition requested_level (isolation_level : option Z) (conn : conn_id) (w : World S)
  : option Z :=
  match isolation_level with
  | Some level =>
      if drv_isolation_level conn (db w) =? level then None else Some level
  | None => None
  end.

(** [if isolation_level is not None: conn.set_isolation_level(isolation_level)]
    (lines 77-78, and again lines 93-94). *)
Definition apply_level (conn : conn_id) (isolation_level : option Z) : M S unit :=
  match isolation_level with
  | Some level =>
      invoke (CallSetIsolationLevel conn level) (drv_set_isolation_level conn level)
  | None => ret tt
  end.

(** The [finally:] clause.  [conn] is the local variable ([None] once the
    connection was given up), [pending] the outcome of the clauses before:
    it stands unless the clause itself raises. *)
Definition finally_clause {A} (conn : option conn_id) (isolation_level : option Z)
    (pending : result A) : M S A := fun w =>
  match conn with
  | Some c =>
      if negb (drv_closed c (db w)) then
        match apply_level c isolation_level w with
        | (Return _, w) =>
            match put c w with
            | (Return _, w) => (pending, w)
            | (Raise e, w) => (Raise e, w)
            | (Blocked, w) => (Blocked, w)
            end
        | (Raise e, w) => (Raise e, w)
        | (Blocked, w) => (Blocked, w)
        end
      else (pending, w)
  | None => (pending, w)
  end.

(** The [except:] clause, entered with the exception [e]; the bare [raise]
    at its end re-raises [e]. *)
Definition except_clause {A} (conn : conn_id) (isolation_level : option Z) (e : exn)
  : M S A := fun w =>
  if drv_closed conn (db w) then
    (* conn = None *)
    match closeall w with
    | (Return _, w) => finally_clause None isolation_level (Raise e) w
    | (Raise e', w) => finally_clause None isolation_level (Raise e') w
    | (Blocked, w) => (Blocked, w)
    end
  else
    match _rollback conn w with
    | (Return conn', w) => finally_clause conn' isolation_level (Raise e) w
    | (Raise e', w) => finally_clause (Some conn) isolation_level (Raise e') w
    | (Blocked, w) => (Blocked, w)
    end.

(** The [else:] clause, entered when the body returned [a]. *)
Definition else_clause {A} (conn : conn_id) (isolation_level : option Z) (a : A)
  : M S A := fun w =>
  if drv_closed conn (db w) then
    finally_clause (Some conn) isolation_level (Raise (OperationalError conn)) w
  else
    match invoke (CallCommit conn) (drv_commit conn) w with
    | (Return _, w) => finally_clause (Some conn) isolation_level (Return a) w
    | (Raise e, w) => finally_clause (Some conn) isolation_level (Raise e) w
    | (Blocked, w) => (Blocked, w)
    end.

(** [with self.connection(isolation_level) as conn: body conn] *)
Definition connection {A} (isolation_level : option Z) (body : conn_id -> M S A)
  : M S A := fun w =>
  match get w with
  | (Return conn, w) =>
      let isolation_level := requested_level isolation_level conn w in
      match bind (apply_level conn isolation_level) (fun _ => body conn) w with
      | (Return a, w) => else_clause conn isolation_level a w
      | (Raise e, w) => except_clause conn isolation_level e w
      | (Blocked, w) => (Blocked, w)
      end
  | (Raise e, w) => (Raise e, w)
  | (Blocked, w) => (Blocked, w)
  end.

(** [with self.cursor(args, isolation_level=...) as cur: body cur]; the
    positional and keyword arguments left after [isolation_level] is popped
    go to [conn.cursor] as they are. *)
Definition cursor {A} (args : list pyval) (isolation_level : option Z)
    (body : cursor_id -> M S A) : M S A := fun w =>
  match get w with
  | (Return conn, w) =>
      let isolation_level := requested_level isolation_level conn w in
      match bind (apply_level conn isolation_level)
                 (fun _ => bind (invoke (CallCursor conn args) (drv_cursor conn args)) body) w with
      | (Return a, w) => else_clause conn isolation_level a w
      | (Raise e, w) => except_clause conn isolation_level e w
      | (Blocked, w) => (Blocked, w)
      end
  | (Raise e, w) => (Raise e, w)
  | (Blocked, w) => (Blocked, w)
  end.

(** *** Checkouts

    A checkout is one [with] statement on either context manager.  Its unit
    of work is what runs between the [try:] and the end of the caller's
    block, once the isolation level is settled: the caller's body, preceded
    for [cursor] by the [conn.cursor(...)] call that makes its argument. *)
Inductive checkout (A : Type) : Type :=
| ViaConnection (isolation_level : option Z) (body : conn_id -> M S A)
| ViaCursor (args : list pyval) (isolation_level : option Z) (body : cursor_id -> M S A).
Arguments ViaConnection {A} isolation_level body.
Arguments ViaCursor {A} args isolation_level body.

Definition run_checkout {A} (co : checkout A) : M S A :=
  match co with
  | ViaConnection isolation_level body => connection isolation_level body
  | ViaCursor args isolation_level body => cursor args isolation_level body
  end.

Definition level_of {A} (co : checkout A) : option Z :=
  match co with
  | ViaConnection isolation_level _ => isolation_level
  | ViaCursor _ isolation_level _ => isolation_level
  end.

Definition unit_of_work {A} (co : checkout A) (conn : conn_id) : M S A :=
  match co with
  | ViaConnection _ body => body conn
  | ViaCursor args _ body =>
      bind (invoke (CallCursor conn args) (drv_cursor conn args)) body
  end.

(** The checkout [co], started in [w0], acquired [conn] (world [w1]),
    settled the isolation level (world [w1']) and its unit of work ended
    with outcome [r] in world [w2]. *)
Definition reaches {A} (co : checkout A) (w0 : World S) (conn : conn_id)
    (w1 w1' : World S) (r : result A) (w2 : World S) : Prop :=
  get w0 = (Return conn, w1) /\
  apply_level conn (requested_level (level_of co) conn w1) w1 = (Return tt, w1') /\
  unit_of_work co conn w1' = (r, w2).

(** *** Reading the call log *)

Definition is_commit (conn : conn_id) (c : call) : bool :=
  match c with CallCommit c' => Nat.eqb c' conn | _ => false end.

Definition is_rollback (conn : conn_id) (c : call) : bool :=
  match c with CallRollback c' => Nat.eqb c' conn | _ => false end.

(** The [commit()] and [rollback()] calls made on [conn], in order. *)
Definition txn_calls (conn : conn_id) (l : list call) : list call :=
  filter (fun c => is_commit conn c || is_rollback conn c) l.

(** The call [apply_level] makes, if any. *)
Definition level_calls (conn : conn_id) (isolation_level : option Z) : list call :=
  match isolation_level with
  | Some level => [CallSetIsolationLevel conn level]
  | None => []
  end.

(** [apply_level] seen from the driver: whether the call it makes (if any)
    returns, and the driver state it leaves. *)
Definition level_returns (conn : conn_id) (isolation_level : option Z) (s : S) : Prop :=
  match isolation_level with
  | Some level => fst (drv_set_isolation_level conn level s) = inr tt
  | None => True
  end.

Definition level_db (conn : conn_id) (isolation_level : option Z) (s : S) : S :=
  match isolation_level with
  | Some level => snd (drv_set_isolation_level conn level s)
  | None => s
  end.

(** The driver state after [close()] was called on each of [done] in turn. *)
Definition closed_all (done : list conn_id) (s : S) : S :=
  fold_left (fun s conn => snd (drv_close conn s)) done s.

(** The world in which [conn] is back in the idle queue: the scope's last
    transaction call [c] left the driver in [s], then came the [finally:]
    clause with its [set_isolation_level] call, if any, and the [put]. *)
Definition returned (conn : conn_id) (isolation_level : option Z) (c : call) (s : S)
    (w : World S) : World S :=
  mkWorld (level_db conn isolation_level s)
          (mkPool (maxsize (self w)) (pool (self w) ++ [conn]) (size (self w))
                  (gets (self w)) (puts (self w) + 1))
          (calls w ++ c :: level_calls conn isolation_level).

(** [close()] raises nothing but errors, that is instances of [Exception]. *)
Definition close_raises_errors : Prop :=
  forall conn s e, fst (drv_close conn s) = inl e -> is_Exception e = true.

(** *** The size invariant and the operations of a pool *)

Definition size_bounded (w : World S) : Prop :=
  0 <= size (self w) <= maxsize (self w).

(** [w'] has the [size] and [maxsize] of [w]. *)
Definition same_size (w w' : World S) : Prop :=
  size (self w') = size (self w) /\ maxsize (self w') = maxsize (self w).

Definition preserves (P : World S -> Prop) {A} (m : M S A) : Prop :=
  forall w, P w -> P (snd (m w)).

Definition work_preserves (P : World S -> Prop) {A} (co : checkout A) : Prop :=
  match co with
  | ViaConnection _ body => forall conn, preserves P (body conn)
  | ViaCursor _ _ body => forall cur, preserves P (body cur)
  end.

(** One operation on the pool.  The body of a checkout is caller code: it
    may use the pool itself (nested checkouts), which is why it is asked to
    keep the bound. *)
Inductive pool_step : World S -> World S -> Prop :=
| step_get w : pool_step w (snd (get w))
| step_put item w : pool_step w (snd (put item w))
| step_closeall w : pool_step w (snd (closeall w))
| step_checkout A (co : checkout A) w :
    work_preserves size_bounded co -> pool_step w (snd (run_checkout co w)).

End Pool.

Arguments ViaConnection {S A} isolation_level body.
Arguments ViaCursor {S A} args isolation_level body.

(** ** A scripted driver

    A small driver used to run the pool on concrete inputs: connections
    are rows of a table, faults are switched on per connection. *)
Module Fake.

Record conn_state : Type := mkConn {
  closed : bool;
  isolation_level : Z;
  commit_fails : bool;
  rollback_fails : bool;
  close_fails : bool
}.

Record state : Type := mkState {
  conns : list conn_state;
  refuse : bool             (* the server refuses new connections *)
}.

(** A fresh connection: open, READ COMMITTED (psycopg2's level 1). *)
Definition fresh : conn_state := mkConn false 1 false false false.

Definition lookup (c : conn_id) (s : state) : conn_state :=
  nth c (conns s) (mkConn true 0 true true true).

Fixpoint update (c : nat) (f : conn_state -> conn_state) (l : list conn_state)
  : list conn_state :=
  match l, c with
  | [], _ => []
  | x :: l, O => f x :: l
  | x :: l, Datatypes.S c => x :: update c f l
  end.

Definition modify (c : conn_id) (f : conn_state -> conn_state) (s : state) : state :=
  mkState (update c f (conns s)) (refuse s).

Definition connect (s : state) : (exn + conn_id) * state :=
  if refuse s then (inl (Error 0), s)
  else (inr (List.length (conns s)), mkState (conns s ++ [fresh]) (refuse s)).

Definition set_isolation_level (c : conn_id) (level : Z) (s : state)
  : (exn + unit) * state :=
  if closed (lookup c s) then (inl (Error 1), s)
  else (inr tt, modify c (fun x => mkConn (closed x) level (commit_fails x)
                                          (rollback_fails x) (close_fails x)) s).

Definition commit (c : conn_id) (s : state) : (exn + unit) * state :=
  if commit_fails (lookup c s) then (inl (Error 2), s) else (inr tt, s).

Definition rollback (c : conn_id) (s : state) : (exn + unit) * state :=
  if rollback_fails (lookup c s) then (inl (Error 3), s) else (inr tt, s).

Definition close (c : conn_id) (s : state) : (exn + unit) * state :=
  let s' := modify c (fun x => mkConn true (isolation_level x) (commit_fails x)
                                      (rollback_fails x) (close_fails x)) s in
  if close_fails (lookup c s) then (inl (Error 4), s') else (inr tt, s').

Definition open_cursor (c : conn_id) (args : list pyval) (s : state)
  : (exn + cursor_id) * state :=
  if closed (lookup c s) then (inl (Error 5), s) else (inr c, s).

#[global] Instance driver : Driver state := {
  drv_connect := connect;
  drv_closed c s := closed (lookup c s);
  drv_isolation_level c s := isolation_level (lookup c s);
  drv_set_isolation_level := set_isolation_level;
  drv_cursor := open_cursor;
  drv_commit := commit;
  drv_rollback := rollback;
  drv_close := close
}.

(** Caller code: a block that does nothing, one that fails, and two for
    which the server drops the connection under the block. *)
Definition work_ok : conn_id -> M state unit := fun _ => ret tt.

Definition work_fails : conn_id -> M state unit := fun _ w => (Raise (Error 42), w).

Definition drop (c : conn_id) (w : World state) : World state :=
  mkWorld (modify c (fun x => mkConn true (isolation_level x) (commit_fails x)
                                     (rollback_fails x) (close_fails x)) (db w))
          (self w) (calls w).

Definition work_ok_dropped : conn_id -> M state unit := fun c w => (Return tt, drop c w).

Definition work_fails_dropped : conn_id -> M state unit :=
  fun c w => (Raise (Error 42), drop c w).

(** A world with the given connection table and pool object, and no call
    made yet. *)
Definition world (conns : list conn_state) (p : DatabaseConnectionPool) : World state :=
  mkWorld (mkState conns false) p [].

(** One pool of at most three connections, with connection 0 created and
    idle. *)
Definition one_idle : World state := world [fresh] (mkPool 3 [0%nat] 1 0 0).

(** Three connections created, 0 about to be handed out, 1 and 2 idle
    behind it; [close()] raises on connection 1. *)
Definition three_idle : World state :=
  world [fresh; mkConn false 1 false false true; fresh]
        (mkPool 3 [0%nat; 1%nat; 2%nat] 3 0 0).

(** Connection 0 idle, with a [commit()] and a [rollback()] that raise. *)
Definition one_faulty : World state :=
  world [mkConn false 1 true true false] (mkPool 3 [0%nat] 1 0 0).

(** An empty pool of at most one connection, and a server that refuses
    connections. *)
Definition refused : World state :=
  mkWorld (mkState [] true) (mkPool 1 [] 0 0 0) [].

End Fake.

(** ** Sequences of pool operations

    Caller code that only composes [put] and [get]: the items of a list
    put one after the other, and [n] connections acquired in a row, the
    first failure or block ending the sequence. *)
Section Clients.

Context {S : Type} {drv : Driver S}.

Fixpoint put_all (items : list conn_id) : M S unit :=
  match items with
  | [] => ret tt
  | item :: rest => bind (put item) (fun _ => put_all rest)
  end.

Fixpoint get_n (n : nat) : M S (list conn_id) :=
  match n with
  | O => ret []
  | Datatypes.S n =>
      bind get (fun item => bind (get_n n) (fun rest => ret (item :: rest)))
  end.

End Clients.

(** ** The query helpers

    [execute], [fetchone], [fetchall] and [fetchiter] run a statement on a
    cursor inside a [cursor] scope.  Cursors are driver objects as well:
    their methods return or raise and change the driver state.  They are not
    written to [calls], which lists the calls on connections. *)

Definition row := list pyval.

Class Cursors (S : Type) : Type := {
  cur_execute : cursor_id -> list pyval -> S -> (exn + unit) * S;
  cur_rowcount : cursor_id -> S -> Z;                       (* attribute *)
  cur_fetchone : cursor_id -> S -> (exn + option row) * S;  (* a row or None *)
  cur_fetchall : cursor_id -> S -> (exn + list row) * S;
  cur_fetchmany : cursor_id -> S -> (exn + list row) * S
}.

Section Queries.

Context {S : Type} {drv : Driver S} {cur : Cursors S}.

(** A method call on a cursor. *)
Definition call_cursor {A} (method : S -> (exn + A) * S) : M S A := fun w =>
  let '(r, s) := method (db w) in
  (match r with inl e => Raise e | inr a => Return a end,
   mkWorld s (self w) (calls w)).

(** [DatabaseConnectionPool.execute]: [args] go to [cursor.execute],
    [kwargs] (less [isolation_level]) to [self.cursor]. *)
Definition execute (args : list pyval) (isolation_level : option Z)
    (kwargs : list pyval) : M S Z :=
  cursor kwargs isolation_level (fun cursor =>
    bind (call_cursor (cur_execute cursor args)) (fun _ =>
    fun w => (Return (cur_rowcount cursor (db w)), w))).

(** [DatabaseConnectionPool.fetchone] *)
Definition fetchone (args : list pyval) (isolation_level : option Z)
    (kwargs : list pyval) : M S (option row) :=
  cursor kwargs isolation_level (fun cursor =>
    bind (call_cursor (cur_execute cursor args)) (fun _ =>
    call_cursor (cur_fetchone cursor))).

(** [DatabaseConnectionPool.fetchall] *)
Definition fetchall (args : list pyval) (isolation_level : option Z)
    (kwargs : list pyval) : M S (list row) :=
  cursor kwargs isolation_level (fun cursor =>
    bind (call_cursor (cur_execute cursor args)) (fun _ =>
    call_cursor (cur_fetchall cursor))).

(** The [while True:] loop of [fetchiter], with every item it yields
    taken by the consumer: the result is the list of the items yielded.
    The loop ends at the first empty batch; [fuel] bounds the number of
    [fetchmany()] calls, and a loop that has not ended when the fuel is
    spent has not come back to its caller, which is the outcome [Blocked]. *)
Fixpoint fetchiter_loop (fuel : nat) (cursor : cursor_id) : M S (list row) :=
  match fuel with
  | O => fun w => (Blocked, w)
  | Datatypes.S fuel =>
      bind (call_cursor (cur_fetchmany cursor)) (fun items =>
        match items with
        | [] => ret []                                     (* if not items: break *)
        | _ :: _ =>
            bind (fetchiter_loop fuel cursor) (fun rest => ret (items ++ rest))
        end)
  end.

(** [DatabaseConnectionPool.fetchiter], run to exhaustion as by
    [list(pool.fetchiter(...))]. *)
Definition fetchiter (fuel : nat) (args : list pyval) (isolation_level : option Z)
    (kwargs : list pyval) : M S (list row) :=
  cursor kwargs isolation_level (fun cursor =>
    bind (call_cursor (cur_execute cursor args)) (fun _ =>
    fetchiter_loop fuel cursor)).

(** The batches [fetchmany()] gives from driver state [s] on: non-empty
    ones, then an empty one, which leaves the driver in [s']. *)
Inductive fetches (cursor : cursor_id) : S -> list (list row) -> S -> Prop :=
| fetches_end s s' :
    cur_fetchmany cursor s = (inr [], s') -> fetches cursor s [] s'
| fetches_batch s items s1 batches s' :
    cur_fetchmany cursor s = (inr items, s1) ->
    items <> [] ->
    fetches cursor s1 batches s' ->
    fetches cursor s (items :: batches) s'.

End Queries.

(** ** The wait callback

    [gevent_wait_callback] talks to a connection and to gevent's
    [wait_read] / [wait_write]; these return or raise and change the driver
    state.  The states a poll answers with are psycopg2's constants. *)

Definition POLL_OK : Z := 0.
Definition POLL_READ : Z := 1.
Definition POLL_WRITE : Z := 2.

Class Poller (S : Type) : Type := {
  conn_poll : conn_id -> S -> (exn + Z) * S;
  conn_fileno : conn_id -> S -> (exn + Z) * S;
  wait_read : Z -> pyval -> S -> (exn + unit) * S;     (* fileno, timeout *)
  wait_write : Z -> pyval -> S -> (exn + unit) * S
}.

(** How the callback ends: it returns, it raises
    [OperationalError("Bad result from poll: %r" % state)], or an exception
    of [poll()], [fileno()] or a wait goes through it. *)
Inductive poll_outcome : Type :=
| Ready
| BadResult (state : Z)
| Failed (e : exn).

(** The waits the callback asked for. *)
Inductive wait_call : Type :=
| WaitRead (fileno : Z) (timeout : pyval)
| WaitWrite (fileno : Z) (timeout : pyval).

Section WaitCallback.

Context {S : Type} {io : Poller S}.

(** [gevent_wait_callback(conn, timeout)].  [fuel] bounds the number of
    polls; [None] is a loop still running when the fuel is spent.  The
    result carries the waits made, oldest first. *)
Fixpoint gevent_wait_callback (fuel : nat) (conn : conn_id) (timeout : pyval) (s : S)
  : option (poll_outcome * S * list wait_call) :=
  match fuel with
  | O => None
  | Datatypes.S fuel =>
      match conn_poll conn s with
      | (inl e, s) => Some (Failed e, s, [])
      | (inr state, s) =>
          if state =? POLL_OK then Some (Ready, s, [])
          else if state =? POLL_READ then
            match conn_fileno conn s with
            | (inl e, s) => Some (Failed e, s, [])
            | (inr fd, s) =>
                match wait_read fd timeout s with
                | (inl e, s) => Some (Failed e, s, [WaitRead fd timeout])
                | (inr _, s) =>
                    match gevent_wait_callback fuel conn timeout s with
                    | Some (out, s, waits) => Some (out, s, WaitRead fd timeout :: waits)
                    | None => None
                    end
                end
            end
          else if state =? POLL_WRITE then
            match conn_fileno conn s with
            | (inl e, s) => Some (Failed e, s, [])
            | (inr fd, s) =>
                match wait_write fd timeout s with
                | (inl e, s) => Some (Failed e, s, [WaitWrite fd timeout])
                | (inr _, s) =>
                    match gevent_wait_callback fuel conn timeout s with
                    | Some (out, s, waits) => Some (out, s, WaitWrite fd timeout :: waits)
                    | None => None
                    end
                end
            end
          else Some (BadResult state, s, [])
      end
  end.

(** From driver state [s], the polls answer the states of [script] (each
    [POLL_READ] or [POLL_WRITE], each followed by a [fileno()] and a wait
    that return) and then [POLL_OK], which leaves the driver in [s'];
    [waits] are the waits this makes. *)
Inductive polls (conn : conn_id) (timeout : pyval)
  : S -> list Z -> list wait_call -> S -> Prop :=
| polls_ok s s' :
    conn_poll conn s = (inr POLL_OK, s') -> polls conn timeout s [] [] s'
| polls_read s s1 fd s2 s3 script waits s' :
    conn_poll conn s = (inr POLL_READ, s1) ->
    conn_fileno conn s1 = (inr fd, s2) ->
    wait_read fd timeout s2 = (inr tt, s3) ->
    polls conn timeout s3 script waits s' ->
    polls conn timeout s (POLL_READ :: script) (WaitRead fd timeout :: waits) s'
| polls_write s s1 fd s2 s3 script waits s' :
    conn_poll conn s = (inr POLL_WRITE, s1) ->
    conn_fileno conn s1 = (inr fd, s2) ->
    wait_write fd timeout s2 = (inr tt, s3) ->
    polls conn timeout s3 script waits s' ->
    polls conn timeout s (POLL_WRITE :: script) (WaitWrite fd timeout :: waits) s'.

End WaitCallback.

(** ** More scripted drivers *)

(** A driver with one connection whose faults are scripted: which of the
    coming [set_isolation_level] calls raise, whether [commit()] and
    [rollback()] leave the connection closed, whether [cursor()] raises,
    and whether [close()] is interrupted. *)
Module Scripted.

Record state : Type := mkState {
  closed : bool;
  level : Z;
  level_raises : list bool;   (* one entry per coming call; none left: it returns *)
  txn_closes : bool;
  cursor_raises : bool;
  close_exits : bool
}.

Definition set_isolation_level (c : conn_id) (l : Z) (s : state) : (exn + unit) * state :=
  match level_raises s with
  | true :: rest =>
      (inl (Error 1),
       mkState (closed s) (level s) rest (txn_closes s) (cursor_raises s) (close_exits s))
  | false :: rest =>
      (inr tt, mkState (closed s) l rest (txn_closes s) (cursor_raises s) (close_exits s))
  | [] =>
      (inr tt, mkState (closed s) l [] (txn_closes s) (cursor_raises s) (close_exits s))
  end.

Definition end_transaction (c : conn_id) (s : state) : (exn + unit) * state :=
  (inr tt,
   mkState (closed s || txn_closes s) (level s) (level_raises s) (txn_closes s)
           (cursor_raises s) (close_exits s)).

Definition close (c : conn_id) (s : state) : (exn + unit) * state :=
  if close_exits s && Nat.eqb c 1 then (inl (Exit 0), s) else (inr tt, s).

#[global] Instance driver : Driver state := {
  drv_connect s := (inr 0%nat, s);
  drv_closed c s := closed s;
  drv_isolation_level c s := level s;
  drv_set_isolation_level := set_isolation_level;
  drv_cursor c args s := if cursor_raises s then (inl (Error 5), s) else (inr c, s);
  drv_commit := end_transaction;
  drv_rollback := end_transaction;
  drv_close := close
}.

(** Connection 0 idle at level 1 in a pool of at most one connection. *)
Definition world (s : state) : World state := mkWorld s (mkPool 1 [0%nat] 1 0 0) [].

Definition healthy : state := mkState false 1 [] false false false.

End Scripted.

(** A driver with cursors: the connections of [Fake], a result set cut in
    the batches [fetchmany()] will give, and a statement that may fail. *)
Module FakeSql.

Record state : Type := mkState {
  base : Fake.state;
  pending : list (list row);
  statement_fails : bool
}.

Definition lift {A} (method : Fake.state -> (exn + A) * Fake.state) (s : state)
  : (exn + A) * state :=
  let '(r, b) := method (base s) in (r, mkState b (pending s) (statement_fails s)).

#[global] Instance driver : Driver state := {
  drv_connect := lift Fake.connect;
  drv_closed c s := Fake.closed (Fake.lookup c (base s));
  drv_isolation_level c s := Fake.isolation_level (Fake.lookup c (base s));
  drv_set_isolation_level c l := lift (Fake.set_isolation_level c l);
  drv_cursor c args := lift (Fake.open_cursor c args);
  drv_commit c := lift (Fake.commit c);
  drv_rollback c := lift (Fake.rollback c);
  drv_close c := lift (Fake.close c)
}.

#[global] Instance cursors : Cursors state := {
  cur_execute c args s :=
    if statement_fails s then (inl (Error 6), s) else (inr tt, s);
  cur_rowcount c s := Z.of_nat (List.length (List.concat (pending s)));
  cur_fetchone c s :=
    match List.concat (pending s) with
    | [] => (inr None, s)
    | r :: rest => (inr (Some r), mkState (base s) [rest] (statement_fails s))
    end;
  cur_fetchall c s :=
    (inr (List.concat (pending s)), mkState (base s) [] (statement_fails s));
  cur_fetchmany c s :=
    match pending s with
    | [] => (inr [], s)
    | batch :: rest => (inr batch, mkState (base s) rest (statement_fails s))
    end
}.

(** Rows 1 to 5 in batches of two, behind connection 0, idle. *)
Definition five_rows : list (list row) :=
  [[[PyInt 1]; [PyInt 2]]; [[PyInt 3]; [PyInt 4]]; [[PyInt 5]]].

Definition world (statement_fails : bool) : World state :=
  mkWorld (mkState (Fake.mkState [Fake.fresh] false) five_rows statement_fails)
          (mkPool 3 [0%nat] 1 0 0) [].

End FakeSql.

(** A connection whose polls answer the states of a list, then [POLL_OK]
    for ever; its socket is descriptor 7 and every wait returns. *)
Module FakePoll.

#[global] Instance poller : Poller (list Z) := {
  conn_poll c s :=
    match s with
    | [] => (inr POLL_OK, [])
    | state :: rest => (inr state, rest)
    end;
  conn_fileno c s := (inr 7, s);
  wait_read fd timeout s := (inr tt, s);
  wait_write fd timeout s := (inr tt, s)
}.

End FakePoll.

(** * Properties *)

Section PoolFacts.

Context {S : Type} {drv : Driver S}.

(** ** Driver calls *)

Lemma invoke_eq {A} (c : call) (method : S -> (exn + A) * S) (w : World S) :
  invoke c method w =
  (match fst (method (db w)) with inl e => Raise e | inr a => Return a end,
   mkWorld (snd (method (db w))) (self w) (calls w ++ [c])).
Proof.
  unfold invoke. destruct (method (db w)) as [r s]. reflexivity.
Qed.

Lemma invoke_not_blocked {A} (c : call) (method : S -> (exn + A) * S) (w w' : World S) :
  invoke c method w <> (Blocked, w').
Proof.
  rewrite invoke_eq. destruct (fst (method (db w))); discriminate.
Qed.

Lemma apply_level_eq (conn : conn_id) (iso : option Z) (w : World S) :
  level_returns conn iso (db w) ->
  apply_level conn iso w =
  (Return tt, mkWorld (level_db conn iso (db w)) (self w) (calls w ++ level_calls conn iso)).
Proof.
  destruct iso as [level|]; simpl; intros H.
  - rewrite invoke_eq, H. reflexivity.
  - unfold ret. rewrite app_nil_r. destruct w; reflexivity.
Qed.

Lemma apply_level_inv (conn : conn_id) (iso : option Z) (w : World S) r w' :
  apply_level conn iso w = (r, w') ->
  self w' = self w /\ calls w' = calls w ++ level_calls conn iso /\ r <> Blocked.
Proof.
  destruct iso as [level|]; simpl.
  - rewrite invoke_eq. intros H; inversion H; subst; simpl.
    repeat split. destruct (fst _); discriminate.
  - unfold ret. intros H; inversion H; subst.
    rewrite app_nil_r. repeat split. discriminate.
Qed.

(** ** [closeall] *)

Lemma closeall_loop_inv (q : list conn_id) : forall (w : World S) r w',
  pool (self w) = q ->
  closeall_loop q w = (r, w') ->
  (maxsize (self w') = maxsize (self w) /\ size (self w') = size (self w) /\
   gets (self w') = gets (self w) /\ puts (self w') = puts (self w)) /\
  exists done,
    q = done ++ pool (self w') /\
    calls w' = calls w ++ map CallClose done /\
    db w' = closed_all done (db w) /\
    match r with
    | Return _ => pool (self w') = []
    | Raise e => is_Exception e = false /\ exists conn s, fst (drv_close conn s) = inl e
    | Blocked => False
    end.
Proof.
  induction q as [|conn rest IH]; intros w r w' Hq Hrun; simpl in Hrun.
  - inversion Hrun; subst. split; [tauto|].
    exists []. simpl. rewrite app_nil_r. auto.
  - rewrite invoke_eq in Hrun; simpl in Hrun.
    set (w1 := mkWorld (snd (drv_close conn (db w)))
                       (mkPool (maxsize (self w)) rest (size (self w))
                               (gets (self w)) (puts (self w)))
                       (calls w ++ [CallClose conn])) in *.
    assert (Hnext : closeall_loop rest w1 = (r, w') ->
      (maxsize (self w') = maxsize (self w) /\ size (self w') = size (self w) /\
       gets (self w') = gets (self w) /\ puts (self w') = puts (self w)) /\
      exists done,
        conn :: rest = done ++ pool (self w') /\
        calls w' = calls w ++ map CallClose done /\
        db w' = closed_all done (db w) /\
        match r with
        | Return _ => pool (self w') = []
        | Raise e => is_Exception e = false /\ exists conn s, fst (drv_close conn s) = inl e
        | Blocked => False
        end).
    { intros H. destruct (IH w1 r w' eq_refl H) as [Hframe [done [Hd [Hc [Hs Hr]]]]].
      split; [exact Hframe|].
      exists (conn :: done). simpl. rewrite Hd at 1. rewrite Hc, Hs.
      unfold w1; simpl. rewrite <- app_assoc. auto. }
    destruct (fst (drv_close conn (db w))) as [e|[]] eqn:Hclose; auto.
    destruct (is_Exception e) eqn:He; auto.
    inversion Hrun; subst. split; [simpl; tauto|].
    exists [conn]. simpl. repeat split; eauto.
Qed.

Lemma closeall_inv (w : World S) r w' :
  closeall w = (r, w') ->
  (maxsize (self w') = maxsize (self w) /\ size (self w') = size (self w) /\
   gets (self w') = gets (self w) /\ puts (self w') = puts (self w)) /\
  exists done,
    pool (self w) = done ++ pool (self w') /\
    calls w' = calls w ++ map CallClose done /\
    db w' = closed_all done (db w) /\
    match r with
    | Return _ => pool (self w') = []
    | Raise e => is_Exception e = false /\ exists conn s, fst (drv_close conn s) = inl e
    | Blocked => False
    end.
Proof.
  unfold closeall. apply closeall_loop_inv. reflexivity.
Qed.

Lemma closeall_returns (w : World S) :
  close_raises_errors ->
  exists w',
    closeall w = (Return tt, w') /\
    self w' = mkPool (maxsize (self w)) [] (size (self w)) (gets (self w)) (puts (self w)) /\
    calls w' = calls w ++ map CallClose (pool (self w)) /\
    db w' = closed_all (pool (self w)) (db w).
Proof.
  intros Herr. destruct (closeall w) as [r w'] eqn:Hrun.
  destruct (closeall_inv _ _ _ Hrun) as [[Hm [Hs [Hg Hp]]] [done [Hd [Hc [Hdb Hr]]]]].
  destruct r as [[]|e|].
  - exists w'. rewrite Hr, app_nil_r in Hd. subst done.
    repeat split; auto.
    destruct (self w'); simpl in *; congruence.
  - destruct Hr as [He [conn [s Hraise]]].
    apply Herr in Hraise. congruence.
  - contradiction.
Qed.

(** C9.  [closeall] pops every connection of the idle queue and calls
    [close()] on it, queue order, going on when a [close()] raises an error:
    it returns, the queue is empty, [close()] was called on the queued
    connections and on no other (nothing else was called, so a connection
    that is checked out is not touched), and [maxsize], [size], [gets] and
    [puts] are as before. *)
Theorem closeall_drains_idle_queue (w : World S) :
  close_raises_errors ->
  exists w',
    closeall w = (Return tt, w') /\
    pool (self w') = [] /\
    calls w' = calls w ++ map CallClose (pool (self w)) /\
    db w' = closed_all (pool (self w)) (db w) /\
    maxsize (self w') = maxsize (self w) /\
    size (self w') = size (self w) /\
    gets (self w') = gets (self w) /\
    puts (self w') = puts (self w).
Proof.
  intros Herr. destruct (closeall_returns w Herr) as [w' [Hrun [Hself [Hc Hdb]]]].
  exists w'. rewrite Hself. simpl. repeat split; assumption.
Qed.

(** ** [get] and [put] *)

Lemma get_from_queue (w : World S) :
  maxsize (self w) <= size (self w) \/ pool (self w) <> [] ->
  get w =
  queue_get (set_self (mkPool (maxsize (self w)) (pool (self w)) (size (self w))
                              (gets (self w) + 1) (puts (self w))) w).
Proof.
  intros H. unfold get.
  replace ((maxsize (self w) <=? size (self w))
           || negb (Z.of_nat (List.length (pool (self w))) =? 0)) with true; [reflexivity|].
  symmetry. apply orb_true_iff. destruct H as [H|H].
  - left. apply Z.leb_le. exact H.
  - right. destruct (pool (self w)); [congruence|reflexivity].
Qed.

Lemma get_creates (w : World S) :
  size (self w) < maxsize (self w) -> pool (self w) = [] ->
  get w =
  (match fst (drv_connect (db w)) with inl e => Raise e | inr conn => Return conn end,
   mkWorld (snd (drv_connect (db w)))
           (mkPool (maxsize (self w)) []
                   (match fst (drv_connect (db w)) with
                    | inl _ => size (self w)
                    | inr _ => size (self w) + 1
                    end)
                   (gets (self w) + 1) (puts (self w)))
           (calls w ++ [CallConnect])).
Proof.
  intros Hlt Hq. unfold get. rewrite Hq. simpl.
  replace (maxsize (self w) <=? size (self w)) with false
    by (symmetry; apply Z.leb_gt; exact Hlt).
  simpl. unfold create_connection. rewrite invoke_eq. simpl.
  destruct (fst (drv_connect (db w))); simpl; [|reflexivity].
  unfold set_self; simpl. rewrite Z.add_simpl_r. reflexivity.
Qed.

(** C5.  [get] adds one to [gets] whatever happens next.  When the pool is
    at its ceiling or a connection is idle it takes the oldest idle
    connection, or blocks on an empty queue, and neither [size] nor the
    driver is touched.  Otherwise the factory is called once: when it
    returns, its connection is handed out and [size] is one more; when it
    raises, the error propagates and [size] is what it was. *)
Theorem get_acquires (w : World S) :
  gets (self (snd (get w))) = gets (self w) + 1 /\
  (maxsize (self w) <= size (self w) \/ pool (self w) <> [] ->
   get w =
   match pool (self w) with
   | item :: rest =>
       (Return item,
        mkWorld (db w)
                (mkPool (maxsize (self w)) rest (size (self w))
                        (gets (self w) + 1) (puts (self w)))
                (calls w))
   | [] =>
       (Blocked,
        mkWorld (db w)
                (mkPool (maxsize (self w)) [] (size (self w))
                        (gets (self w) + 1) (puts (self w)))
                (calls w))
   end) /\
  (size (self w) < maxsize (self w) -> pool (self w) = [] ->
   get w =
   match drv_connect (db w) with
   | (inr conn, s) =>
       (Return conn,
        mkWorld s
                (mkPool (maxsize (self w)) [] (size (self w) + 1)
                        (gets (self w) + 1) (puts (self w)))
                (calls w ++ [CallConnect]))
   | (inl e, s) =>
       (Raise e,
        mkWorld s
                (mkPool (maxsize (self w)) [] (size (self w))
                        (gets (self w) + 1) (puts (self w)))
                (calls w ++ [CallConnect]))
   end).
Proof.
  assert (Hq : maxsize (self w) <= size (self w) \/ pool (self w) <> [] ->
               get w =
               match pool (self w) with
               | item :: rest =>
                   (Return item,
                    mkWorld (db w)
                            (mkPool (maxsize (self w)) rest (size (self w))
                                    (gets (self w) + 1) (puts (self w)))
                            (calls w))
               | [] =>
                   (Blocked,
                    mkWorld (db w)
                            (mkPool (maxsize (self w)) [] (size (self w))
                                    (gets (self w) + 1) (puts (self w)))
                            (calls w))
               end).
  { intros H. rewrite (get_from_queue w H). unfold queue_get, set_self; simpl.
    destruct (pool (self w)); reflexivity. }
  split; [|split].
  - destruct (Z_le_gt_dec (maxsize (self w)) (size (self w))) as [Hle|Hgt].
    + rewrite (Hq (or_introl Hle)). destruct (pool (self w)); reflexivity.
    + destruct (pool (self w)) as [|item rest] eqn:Hpool.
      * rewrite get_creates by (assumption || lia). reflexivity.
      * rewrite Hq by (right; congruence). reflexivity.
  - exact Hq.
  - intros Hlt Hpool. rewrite (get_creates w Hlt Hpool).
    destruct (drv_connect (db w)) as [[e|conn] s]; reflexivity.
Qed.

(** ** Construction *)

(** C8, what fails.  Zero is an integer that is not positive, and it is
    accepted: a pool with [maxsize] 0 is built.  So it is not true that every
    value other than a positive integer is rejected. *)
Lemma init_accepts_zero :
  __init__ (PyInt 0) = inr (mkPool 0 [] 0 0 0) /\
  ~ (forall v : pyval,
       ~ (isinstance_int_long v = true /\ 0 < int_value v) ->
       exists e, __init__ v = inl e).
Proof.
  split; [reflexivity|].
  intros H. destruct (H (PyInt 0)) as [e He].
  - simpl. intros [_ Hpos]. lia.
  - discriminate He.
Qed.

(** C8, amended.  Construction fails, with a [TypeError] carrying the value,
    exactly for the values that are no instance of [int] or [long]; every
    integer, positive or not, gives a pool with that [maxsize], an empty
    queue and zero counters. *)
Theorem init_rejects_exactly_non_integers (v : pyval) :
  (isinstance_int_long v = false <-> __init__ v = inl (TypeError v)) /\
  (isinstance_int_long v = true <-> __init__ v = inr (mkPool (int_value v) [] 0 0 0)) /\
  (forall n : Z, __init__ (PyInt n) = inr (mkPool n [] 0 0 0) /\
                 __init__ (PyLong n) = inr (mkPool n [] 0 0 0)).
Proof.
  unfold __init__. destruct (isinstance_int_long v); simpl.
  - repeat split; (congruence || discriminate).
  - repeat split; (congruence || discriminate).
Qed.

(** ** The size bound *)

Lemma same_size_bounded (w w' : World S) :
  same_size w w' -> size_bounded w -> size_bounded w'.
Proof.
  unfold same_size, size_bounded. intros [Hs Hm]. rewrite Hs, Hm. auto.
Qed.

Lemma same_size_trans (w1 w2 w3 : World S) :
  same_size w1 w2 -> same_size w2 w3 -> same_size w1 w3.
Proof.
  unfold same_size. intros [? ?] [? ?]. split; congruence.
Qed.

Lemma invoke_same_size {A} c (method : S -> (exn + A) * S) (w : World S) :
  same_size w (snd (invoke c method w)).
Proof. rewrite invoke_eq. split; reflexivity. Qed.

Lemma apply_level_same_size conn iso (w : World S) :
  same_size w (snd (apply_level conn iso w)).
Proof.
  destruct iso; simpl; [apply invoke_same_size|split; reflexivity].
Qed.

Lemma put_same_size item (w : World S) : same_size w (snd (put item w)).
Proof. split; reflexivity. Qed.

Lemma closeall_same_size (w : World S) : same_size w (snd (closeall w)).
Proof.
  destruct (closeall w) as [r w'] eqn:H.
  destruct (closeall_inv _ _ _ H) as [[Hm [Hs _]] _]. split; assumption.
Qed.

Lemma rollback_same_size conn (w : World S) : same_size w (snd (_rollback conn w)).
Proof.
  unfold _rollback. rewrite invoke_eq.
  destruct (fst (drv_rollback conn (db w))) as [e|[]]; split; reflexivity.
Qed.

Lemma finally_same_size {A} conn iso (pending : result A) (w : World S) :
  same_size w (snd (finally_clause conn iso pending w)).
Proof.
  unfold finally_clause. destruct conn as [c|]; [|split; reflexivity].
  destruct (negb (drv_closed c (db w))); [|split; reflexivity].
  pose proof (apply_level_same_size c iso w) as H.
  destruct (apply_level c iso w) as [[[]|e|] w1]; simpl in *; exact H.
Qed.

Lemma except_same_size {A} conn iso e (w : World S) :
  same_size w (snd (@except_clause S drv A conn iso e w)).
Proof.
  unfold except_clause. destruct (drv_closed conn (db w)).
  - pose proof (closeall_same_size w) as H.
    destruct (closeall w) as [[[]|e'|] w1]; simpl in H; [| |exact H];
      (eapply same_size_trans; [exact H|apply finally_same_size]).
  - pose proof (rollback_same_size conn w) as H.
    destruct (_rollback conn w) as [[conn'|e'|] w1]; simpl in H; [| |exact H];
      (eapply same_size_trans; [exact H|apply finally_same_size]).
Qed.

Lemma else_same_size {A} conn iso (a : A) (w : World S) :
  same_size w (snd (else_clause conn iso a w)).
Proof.
  unfold else_clause. destruct (drv_closed conn (db w)).
  - apply finally_same_size.
  - pose proof (invoke_same_size (CallCommit conn) (drv_commit conn) w) as H.
    destruct (invoke (CallCommit conn) (drv_commit conn) w) as [[[]|e'|] w1];
      simpl in H; [| |exact H];
      (eapply same_size_trans; [exact H|apply finally_same_size]).
Qed.

Lemma get_bounded (w : World S) : size_bounded w -> size_bounded (snd (get w)).
Proof.
  unfold size_bounded. intros Hb.
  destruct (Z_le_gt_dec (maxsize (self w)) (size (self w))) as [Hle|Hgt].
  - rewrite get_from_queue by (left; exact Hle).
    unfold queue_get, set_self; simpl. destruct (pool (self w)); simpl; exact Hb.
  - destruct (pool (self w)) as [|item rest] eqn:Hpool.
    + rewrite get_creates by (assumption || lia). simpl.
      destruct (fst (drv_connect (db w))); lia.
    + rewrite get_from_queue by (right; congruence).
      unfold queue_get, set_self; simpl. rewrite Hpool. simpl. exact Hb.
Qed.

Lemma unit_of_work_bounded {A} (co : checkout A) conn :
  work_preserves size_bounded co -> preserves size_bounded (unit_of_work co conn).
Proof.
  destruct co as [iso body|args iso body]; simpl; intros Hbody; [apply Hbody|].
  intros w Hb. unfold bind.
  pose proof (invoke_same_size (CallCursor conn args) (drv_cursor conn args) w) as H.
  destruct (invoke (CallCursor conn args) (drv_cursor conn args) w) as [[cur|e|] w1];
    simpl in H.
  - apply Hbody. eapply same_size_bounded; eassumption.
  - eapply same_size_bounded; eassumption.
  - eapply same_size_bounded; eassumption.
Qed.

(** Both context managers are the same protocol around the unit of work. *)
Lemma run_checkout_eq {A} (co : checkout A) (w : World S) :
  run_checkout co w =
  match get w with
  | (Return conn, w1) =>
      let iso := requested_level (level_of co) conn w1 in
      match bind (apply_level conn iso) (fun _ => unit_of_work co conn) w1 with
      | (Return a, w2) => else_clause conn iso a w2
      | (Raise e, w2) => except_clause conn iso e w2
      | (Blocked, w2) => (Blocked, w2)
      end
  | (Raise e, w1) => (Raise e, w1)
  | (Blocked, w1) => (Blocked, w1)
  end.
Proof. destruct co; reflexivity. Qed.

Lemma run_checkout_bounded {A} (co : checkout A) :
  work_preserves size_bounded co -> preserves size_bounded (run_checkout co).
Proof.
  intros Hwork w Hb. rewrite run_checkout_eq.
  pose proof (get_bounded w Hb) as H1.
  destruct (get w) as [[conn| |] w1]; simpl in H1; try exact H1.
  cbv zeta. set (iso := requested_level (level_of co) conn w1).
  unfold bind.
  pose proof (apply_level_same_size conn iso w1) as H2.
  destruct (apply_level conn iso w1) as [[[]|e|] w1']; simpl in H2.
  - pose proof (unit_of_work_bounded co conn Hwork w1'
                  (same_size_bounded _ _ H2 H1)) as H3.
    destruct (unit_of_work co conn w1') as [[a|e|] w2]; simpl in H3.
    + eapply same_size_bounded; [apply else_same_size|exact H3].
    + eapply same_size_bounded; [apply except_same_size|exact H3].
    + exact H3.
  - eapply same_size_bounded; [|exact H1].
    eapply same_size_trans; [exact H2|apply except_same_size].
  - eapply same_size_bounded; [exact H2|exact H1].
Qed.

Lemma pool_step_bounded (w w' : World S) :
  pool_step w w' -> size_bounded w -> size_bounded w'.
Proof.
  intros Hstep Hb. destruct Hstep as [w|item w|w|A co w Hwork].
  - apply get_bounded; exact Hb.
  - eapply same_size_bounded; [apply put_same_size|exact Hb].
  - eapply same_size_bounded; [apply closeall_same_size|exact Hb].
  - apply run_checkout_bounded; assumption.
Qed.

Lemma reachable_bounded (w0 w : World S) :
  clos_refl_trans (World S) pool_step w0 w -> size_bounded w0 -> size_bounded w.
Proof.
  induction 1 as [x y Hstep|x|x y z _ IHxy _ IHyz]; intros Hb.
  - eapply pool_step_bounded; eassumption.
  - exact Hb.
  - auto.
Qed.

(** C6.  A pool built with a positive integer [maxsize] has
    [0 <= size <= maxsize], and so has every world reached from it by
    [get] (whether the factory returns or raises), [put], [closeall] and
    checkouts through [connection] or [cursor] whose body keeps the
    bound. *)
Theorem size_stays_bounded (v : pyval) (p : DatabaseConnectionPool) (s : S)
    (w : World S) :
  __init__ v = inr p ->
  0 < int_value v ->
  clos_refl_trans (World S) pool_step (mkWorld s p []) w ->
  0 <= size (self w) <= maxsize (self w).
Proof.
  intros Hinit Hpos Hreach.
  apply (reachable_bounded _ _ Hreach).
  unfold __init__ in Hinit. destruct (isinstance_int_long v); simpl in Hinit;
    [|discriminate].
  inversion Hinit; subst. unfold size_bounded; simpl. lia.
Qed.

(** ** The transaction scope *)

Lemma run_checkout_reaches {A} (co : checkout A) (w0 : World S) conn w1 w1' r w2 :
  reaches co w0 conn w1 w1' r w2 ->
  run_checkout co w0 =
  match r with
  | Return a => else_clause conn (requested_level (level_of co) conn w1) a w2
  | Raise e => except_clause conn (requested_level (level_of co) conn w1) e w2
  | Blocked => (Blocked, w2)
  end.
Proof.
  intros [Hget [Hlevel Hwork]]. rewrite run_checkout_eq, Hget. cbv zeta.
  unfold bind. rewrite Hlevel, Hwork. destruct r; reflexivity.
Qed.

Lemma txn_calls_app conn (l1 l2 : list call) :
  txn_calls conn (l1 ++ l2) = txn_calls conn l1 ++ txn_calls conn l2.
Proof. apply filter_app. Qed.

Lemma txn_calls_level conn c iso : txn_calls conn (level_calls c iso) = [].
Proof. destruct iso; reflexivity. Qed.


Lemma txn_calls_commit conn : txn_calls conn [CallCommit conn] = [CallCommit conn].
Proof. unfold txn_calls; simpl. rewrite Nat.eqb_refl. reflexivity. Qed.


(** Up to the unit of work the scope calls the factory at most, and
    [set_isolation_level] at most once. *)
Lemma entry_calls {A} (co : checkout A) (w0 : World S) conn w1 w1' r w2 :
  reaches co w0 conn w1 w1' r w2 ->
  exists pre, calls w1' = calls w0 ++ pre /\ txn_calls conn pre = [].
Proof.
  intros [Hget [Hlevel _]].
  destruct (apply_level_inv _ _ _ _ _ Hlevel) as [_ [Hc _]].
  set (iso := requested_level (level_of co) conn w1) in *.
  destruct (Z_le_gt_dec (maxsize (self w0)) (size (self w0))) as [Hle|Hgt];
    [|destruct (pool (self w0)) as [|item rest] eqn:Hpool].
  - rewrite get_from_queue in Hget by (left; exact Hle).
    unfold queue_get in Hget; simpl in Hget.
    destruct (pool (self w0)); inversion Hget; subst.
    exists (level_calls conn iso). split; [exact Hc|apply txn_calls_level].
  - rewrite get_creates in Hget by (assumption || lia).
    inversion Hget; subst. simpl in Hc.
    exists ([CallConnect] ++ level_calls conn iso).
    split; [rewrite Hc, app_assoc; reflexivity|].
    rewrite txn_calls_app, txn_calls_level. reflexivity.
  - rewrite get_from_queue in Hget by (right; congruence).
    unfold queue_get in Hget; simpl in Hget. rewrite Hpool in Hget.
    inversion Hget; subst.
    exists (level_calls conn iso). split; [exact Hc|apply txn_calls_level].
Qed.

Lemma finally_returns {A} conn iso (pending : result A) (w : World S) :
  drv_closed conn (db w) = false ->
  level_returns conn iso (db w) ->
  finally_clause (Some conn) iso pending w =
  (pending,
   mkWorld (level_db conn iso (db w))
           (mkPool (maxsize (self w)) (pool (self w) ++ [conn]) (size (self w))
                   (gets (self w)) (puts (self w) + 1))
           (calls w ++ level_calls conn iso)).
Proof.
  intros Hopen Hlevel. unfold finally_clause. rewrite Hopen. simpl.
  rewrite (apply_level_eq _ _ _ Hlevel). reflexivity.
Qed.

Lemma finally_closed {A} conn iso (pending : result A) (w : World S) :
  drv_closed conn (db w) = true ->
  finally_clause (Some conn) iso pending w = (pending, w).
Proof.
  intros Hclosed. unfold finally_clause. rewrite Hclosed. reflexivity.
Qed.

(** The [else:] clause on a connection that is open before and after
    [commit()]: one [commit()], whose outcome is the outcome of the scope,
    and the connection goes back. *)
Lemma else_clause_open {A} conn iso (a : A) (w : World S) rc s :
  drv_closed conn (db w) = false ->
  drv_commit conn (db w) = (rc, s) ->
  drv_closed conn s = false ->
  level_returns conn iso s ->
  else_clause conn iso a w =
  (match rc with inl e => Raise e | inr _ => Return a end,
   returned conn iso (CallCommit conn) s w).
Proof.
  intros Hopen Hcommit Hopen' Hlevel. unfold else_clause.
  rewrite Hopen, invoke_eq, Hcommit. cbn [fst snd].
  destruct rc as [e|[]]; rewrite finally_returns by assumption;
    unfold returned; simpl; rewrite <- app_assoc; reflexivity.
Qed.

Lemma scope_txn_calls conn (pre : list call) c iso :
  txn_calls conn pre = [] ->
  txn_calls conn [c] = [c] ->
  txn_calls conn (pre ++ c :: level_calls conn iso) = [c].
Proof.
  intros Hnone Hc. rewrite txn_calls_app, Hnone. cbn [app].
  change (c :: level_calls conn iso) with ([c] ++ level_calls conn iso).
  rewrite txn_calls_app, Hc, txn_calls_level. reflexivity.
Qed.

Lemma get_after_return conn iso c s (w : World S) :
  fst (get (returned conn iso c s w)) = Return (hd conn (pool (self w))).
Proof.
  rewrite get_from_queue.
  - unfold queue_get, returned; simpl. destruct (pool (self w)); reflexivity.
  - right. unfold returned; simpl. destruct (pool (self w)); discriminate.
Qed.


Lemma except_clause_closed {A} conn iso e (w : World S) :
  drv_closed conn (db w) = true ->
  @except_clause S drv A conn iso e w =
  match closeall w with
  | (Return _, w') => (Raise e, w')
  | (Raise e', w') => (Raise e', w')
  | (Blocked, w') => (Blocked, w')
  end.
Proof.
  intros Hclosed. unfold except_clause. rewrite Hclosed.
  destruct (closeall w) as [[[]|e'|] w']; reflexivity.
Qed.

Lemma except_clause_rolled_back {A} conn iso e (w : World S) s :
  drv_closed conn (db w) = false ->
  drv_rollback conn (db w) = (inr tt, s) ->
  drv_closed conn s = false ->
  level_returns conn iso s ->
  @except_clause S drv A conn iso e w =
  (Raise e, returned conn iso (CallRollback conn) s w).
Proof.
  intros Hopen Hrollback Hopen' Hlevel. unfold except_clause, _rollback.
  rewrite Hopen, invoke_eq, Hrollback. cbn [fst snd].
  rewrite finally_returns by assumption.
  unfold returned; simpl; rewrite <- app_assoc; reflexivity.
Qed.


(** A requested level that the connection already has is dropped: the
    scope makes no [set_isolation_level] call, on entry or in [finally:]. *)
Lemma matching_level_makes_no_call {A} (co : checkout A) (w0 : World S)
    conn w1 w1' r w2 level :
  reaches co w0 conn w1 w1' r w2 ->
  level_of co = Some level ->
  drv_isolation_level conn (db w1) = level ->
  requested_level (level_of co) conn w1 = None /\ w1' = w1.
Proof.
  intros [_ [Hlevel _]] Hco Hsame. unfold requested_level in *.
  rewrite Hco in *. rewrite Hsame, Z.eqb_refl in *.
  split; [reflexivity|]. simpl in Hlevel. inversion Hlevel. reflexivity.
Qed.

(** A requested level that differs is set before the unit of work, and it
    is that same level that the [finally:] clause applies again. *)
Lemma differing_level_is_set {A} (co : checkout A) (w0 : World S)
    conn w1 w1' r w2 level :
  reaches co w0 conn w1 w1' r w2 ->
  level_of co = Some level ->
  drv_isolation_level conn (db w1) <> level ->
  requested_level (level_of co) conn w1 = Some level /\
  calls w1' = calls w1 ++ [CallSetIsolationLevel conn level] /\
  db w1' = snd (drv_set_isolation_level conn level (db w1)).
Proof.
  intros [_ [Hlevel _]] Hco Hdiff. unfold requested_level in *.
  rewrite Hco in *. apply Z.eqb_neq in Hdiff. rewrite Hdiff in *.
  split; [reflexivity|]. simpl in Hlevel. rewrite invoke_eq in Hlevel.
  inversion Hlevel. split; reflexivity.
Qed.


(** C10.  The unit of work returned and left the connection open, but
    [commit()] raises [e], the connection staying open (and the
    [set_isolation_level] call of the [finally:] clause returning, when a
    level was set).  Then the checkout raises [e]; the scope called
    [commit()] once and never [rollback()]; the requested level was applied
    again, and the connection was appended to the idle queue all the same. *)
Theorem commit_failure_keeps_connection {A} (co : checkout A) (w0 : World S)
    conn w1 w1' a w2 e s :
  reaches co w0 conn w1 w1' (Return a) w2 ->
  drv_closed conn (db w2) = false ->
  drv_commit conn (db w2) = (inl e, s) ->
  drv_closed conn s = false ->
  level_returns conn (requested_level (level_of co) conn w1) s ->
  exists w' pre post,
    run_checkout co w0 = (Raise e, w') /\
    calls w1' = calls w0 ++ pre /\
    calls w' = calls w2 ++ post /\
    post = CallCommit conn :: level_calls conn (requested_level (level_of co) conn w1) /\
    txn_calls conn (pre ++ post) = [CallCommit conn] /\
    pool (self w') = pool (self w2) ++ [conn] /\
    puts (self w') = puts (self w2) + 1 /\
    fst (get w') = Return (hd conn (pool (self w2))).
Proof.
  intros Hreach Hopen Hcommit Hopen' Hlevel.
  set (iso := requested_level (level_of co) conn w1) in *.
  destruct (entry_calls _ _ _ _ _ _ _ Hreach) as [pre [Hpre Hnone]].
  exists (returned conn iso (CallCommit conn) s w2), pre,
         (CallCommit conn :: level_calls conn iso).
  rewrite (run_checkout_reaches _ _ _ _ _ _ _ Hreach).
  fold iso. rewrite (else_clause_open _ _ _ _ _ _ Hopen Hcommit Hopen' Hlevel).
  repeat split; try assumption.
  - apply scope_txn_calls; [exact Hnone|apply txn_calls_commit].
  - apply get_after_return.
Qed.




End PoolFacts.

(** ** The protocol on concrete runs *)

Lemma fake_close_raises_errors : @close_raises_errors Fake.state Fake.driver.
Proof.
  intros conn s e. simpl. unfold Fake.close.
  destruct (Fake.close_fails (Fake.lookup conn s)); simpl; intros H;
    inversion H; reflexivity.
Qed.

(** C4, the failing run.  Connection 0 is idle at level 1 (READ COMMITTED);
    a checkout asks for level 3 (SERIALIZABLE) and its body does nothing.
    The scope calls [set_isolation_level(3)], [commit()] and
    [set_isolation_level(3)] again: the connection is back in the idle
    queue at level 3, not at the level 1 it had. *)
Theorem isolation_level_reapplied_not_restored :
  drv_isolation_level 0%nat (db Fake.one_idle) = 1 /\
  exists w',
    connection (Some 3) Fake.work_ok Fake.one_idle = (Return tt, w') /\
    calls w' = [CallSetIsolationLevel 0%nat 3; CallCommit 0%nat;
                CallSetIsolationLevel 0%nat 3] /\
    pool (self w') = [0%nat] /\
    drv_isolation_level 0%nat (db w') = 3.
Proof.
  split; [reflexivity|]. eexists. split; [vm_compute; reflexivity|].
  repeat split.
Qed.


(** C10 on a run: connection 0, checked out at level 3, has a [commit()]
    that raises. *)
Lemma commit_failure_keeps_connection_witness :
  let co := ViaConnection (Some 3) Fake.work_ok in
  let w1 := snd (get Fake.one_faulty) in
  let w1' := snd (apply_level 0%nat (Some 3) w1) in
  reaches co Fake.one_faulty 0%nat w1 w1' (Return tt) w1' /\
  drv_closed 0%nat (db w1') = false /\
  drv_commit 0%nat (db w1') = (inl (Error 2), db w1') /\
  exists w',
    run_checkout co Fake.one_faulty = (Raise (Error 2), w') /\
    calls w' = calls w1' ++ [CallCommit 0%nat; CallSetIsolationLevel 0%nat 3] /\
    pool (self w') = [0%nat].
Proof.
  intros co w1 w1'.
  assert (Hreach : reaches co Fake.one_faulty 0%nat w1 w1' (Return tt) w1')
    by (repeat split).
  split; [exact Hreach|]. split; [reflexivity|]. split; [reflexivity|].
  destruct (commit_failure_keeps_connection co Fake.one_faulty 0%nat w1 w1' tt w1'
              (Error 2) (db w1') Hreach)
    as [w' [pre [post [Hrun [_ [Hcalls [Hpost [_ [Hpool _]]]]]]]]].
  - reflexivity.
  - reflexivity.
  - reflexivity.
  - reflexivity.
  - exists w'. subst post. repeat split; assumption.
Defined.




(** C9 on a run: three idle connections, [close()] raising on the second. *)
Lemma closeall_drains_idle_queue_witness :
  @close_raises_errors Fake.state Fake.driver /\
  exists w',
    closeall Fake.three_idle = (Return tt, w') /\
    pool (self w') = [] /\
    calls w' = [CallClose 0%nat; CallClose 1%nat; CallClose 2%nat] /\
    size (self w') = 3.
Proof.
  split; [exact fake_close_raises_errors|].
  destruct (closeall_drains_idle_queue Fake.three_idle fake_close_raises_errors)
    as [w' [Hrun [Hpool [Hcalls [_ [_ [Hsize _]]]]]]].
  exists w'. repeat split; assumption.
Defined.

(** C5 on two runs: a pool at its ceiling with an idle connection, and an
    empty pool whose factory raises. *)
Lemma get_acquires_witness :
  (maxsize (self Fake.three_idle) <= size (self Fake.three_idle) /\
   fst (get Fake.three_idle) = Return 0%nat /\
   size (self (snd (get Fake.three_idle))) = 3) /\
  (size (self Fake.refused) < maxsize (self Fake.refused) /\
   pool (self Fake.refused) = [] /\
   fst (get Fake.refused) = Raise (Error 0) /\
   size (self (snd (get Fake.refused))) = 0 /\
   gets (self (snd (get Fake.refused))) = 1).
Proof.
  split.
  - assert (Hfull : maxsize (self Fake.three_idle) <= size (self Fake.three_idle))
      by (simpl; lia).
    split; [exact Hfull|].
    destruct (get_acquires Fake.three_idle) as [_ [Hqueue _]].
    rewrite (Hqueue (or_introl Hfull)). split; reflexivity.
  - assert (Hroom : size (self Fake.refused) < maxsize (self Fake.refused))
      by (simpl; lia).
    split; [exact Hroom|]. split; [reflexivity|].
    destruct (get_acquires Fake.refused) as [Hgets [_ Hcreate]].
    rewrite (Hcreate Hroom eq_refl). repeat split.
Defined.

(** C6 on a run: a pool of at most two connections, two [get]s that create
    a connection each, a third that blocks, a [put] and a checkout. *)
Lemma size_stays_bounded_witness :
  let w0 := mkWorld (Fake.mkState [] false) (mkPool 2 [] 0 0 0) [] in
  let w3 := snd (get (snd (get (snd (get w0))))) in
  let w5 := snd (run_checkout (ViaConnection None Fake.work_ok) (snd (put 0%nat w3))) in
  __init__ (PyInt 2) = inr (mkPool 2 [] 0 0 0) /\
  0 < int_value (PyInt 2) /\
  size (self w3) = 2 /\
  0 <= size (self w5) <= maxsize (self w5).
Proof.
  intros w0 w3 w5.
  assert (Hpos : 0 < int_value (PyInt 2)) by (simpl; lia).
  split; [reflexivity|]. split; [exact Hpos|]. split; [reflexivity|].
  apply (size_stays_bounded (PyInt 2) (mkPool 2 [] 0 0 0) (Fake.mkState [] false) w5
           eq_refl Hpos).
  unfold w5.
  apply rt_trans with (y := snd (put 0%nat w3));
    [|apply rt_step; apply (step_checkout unit (ViaConnection None Fake.work_ok));
      intros conn w Hb; exact Hb].
  apply rt_trans with (y := w3); [|apply rt_step; apply step_put].
  unfold w3.
  apply rt_trans with (y := snd (get (snd (get w0)))); [|apply rt_step; apply step_get].
  apply rt_trans with (y := snd (get w0)); apply rt_step; apply step_get.
Defined.

(** C8 on two values: [None] is rejected, the integer -5 is accepted. *)
Lemma init_rejects_exactly_non_integers_witness :
  __init__ PyNone = inl (TypeError PyNone) /\
  __init__ (PyInt (-5)) = inr (mkPool (-5) [] 0 0 0).
Proof.
  split.
  - apply (proj1 (init_rejects_exactly_non_integers PyNone)). reflexivity.
  - apply (proj1 (proj2 (init_rejects_exactly_non_integers (PyInt (-5))))).
    reflexivity.
Defined.

(** * Further properties of the pool *)

Section QueueFacts.

Context {S : Type} {drv : Driver S}.

Lemma put_all_eq (items : list conn_id) : forall w : World S,
  put_all items w =
  (Return tt,
   mkWorld (db w)
           (mkPool (maxsize (self w)) (pool (self w) ++ items) (size (self w))
                   (gets (self w)) (puts (self w) + Z.of_nat (List.length items)))
           (calls w)).
Proof.
  induction items as [|item rest IH]; intros w; simpl.
  - unfold ret. rewrite app_nil_r, Z.add_0_r. destruct w as [s [m q n g p] c].
    reflexivity.
  - unfold bind, put. rewrite IH. unfold set_self. cbn [db self calls maxsize pool size gets puts].
    rewrite <- app_assoc. cbn [List.length app].
    do 3 f_equal. lia.
Qed.

Lemma get_n_queue (q : list conn_id) : forall w : World S,
  pool (self w) = q ->
  get_n (List.length q) w =
  (Return q,
   mkWorld (db w)
           (mkPool (maxsize (self w)) [] (size (self w))
                   (gets (self w) + Z.of_nat (List.length q)) (puts (self w)))
           (calls w)).
Proof.
  induction q as [|item rest IH]; intros w Hq.
  - simpl. unfold ret. rewrite Z.add_0_r. destruct w as [s [m q n g p] c].
    simpl in Hq. subst q. reflexivity.
  - cbn [List.length get_n]. unfold bind at 1.
    rewrite get_from_queue by (right; rewrite Hq; discriminate).
    unfold queue_get, set_self. cbn [db self calls maxsize pool size gets puts].
    rewrite Hq. unfold bind. rewrite IH by reflexivity.
    cbn [db self calls maxsize pool size gets puts]. unfold ret.
    do 3 f_equal. lia.
Qed.

Lemma get_blocks_when_exhausted (w : World S) :
  pool (self w) = [] -> maxsize (self w) <= size (self w) ->
  fst (get w) = Blocked.
Proof.
  intros Hpool Hfull. rewrite get_from_queue by (left; exact Hfull).
  unfold queue_get, set_self; simpl. rewrite Hpool. reflexivity.
Qed.

(** X1.  [get] blocks exactly when no connection is idle and the pool is at
    (or over) its ceiling; in every other state it returns or raises. *)
Theorem get_blocks_iff_exhausted (w : World S) :
  fst (get w) = Blocked <->
  pool (self w) = [] /\ maxsize (self w) <= size (self w).
Proof.
  destruct (Z_le_gt_dec (maxsize (self w)) (size (self w))) as [Hle|Hgt];
    destruct (pool (self w)) as [|item rest] eqn:Hpool.
  - rewrite get_from_queue by (left; exact Hle).
    unfold queue_get, set_self; simpl. rewrite Hpool. simpl. tauto.
  - rewrite get_from_queue by (left; exact Hle).
    unfold queue_get, set_self; simpl. rewrite Hpool. simpl.
    split; [discriminate|intros [H _]; discriminate].
  - rewrite get_creates by (assumption || lia). simpl.
    split; [destruct (fst (drv_connect (db w))); discriminate|lia].
  - rewrite get_from_queue by (right; congruence).
    unfold queue_get, set_self; simpl. rewrite Hpool. simpl.
    split; [discriminate|intros [H _]; discriminate].
Qed.

(** X2.  The idle queue is first in, first out.  Once [items] have been
    put, in order, behind the connections already idle, that many [get]s in
    a row hand out the idle connections and then [items], in that order,
    without calling the driver; the queue is then empty, [size] is what it
    was, and [gets] and [puts] have counted every call. *)
Theorem queue_is_fifo (items : list conn_id) (w : World S) :
  get_n (List.length (pool (self w) ++ items)) (snd (put_all items w)) =
  (Return (pool (self w) ++ items),
   mkWorld (db w)
           (mkPool (maxsize (self w)) [] (size (self w))
                   (gets (self w) + Z.of_nat (List.length (pool (self w) ++ items)))
                   (puts (self w) + Z.of_nat (List.length items)))
           (calls w)).
Proof.
  rewrite put_all_eq. cbn [snd].
  rewrite get_n_queue by reflexivity. reflexivity.
Qed.

End QueueFacts.

Section ScopeFacts.

Context {S : Type} {drv : Driver S}.

(** ** [closeall], continued *)

(** X3.  [closeall] gives no capacity back: the connections it closes stay
    counted in [size], so that after a [closeall] on a pool at its ceiling
    the next [get] blocks on the empty queue instead of creating a
    connection. *)
Theorem closeall_frees_no_capacity (w : World S) :
  close_raises_errors ->
  maxsize (self w) <= size (self w) ->
  fst (get (snd (closeall w))) = Blocked.
Proof.
  intros Herr Hfull.
  destruct (closeall_returns w Herr) as [w' [Hrun [Hself _]]].
  rewrite Hrun. cbn [snd].
  apply get_blocks_when_exhausted; rewrite Hself; simpl; auto.
Qed.

Lemma closeall_loop_raise (q : list conn_id) : forall (w : World S) e w',
  pool (self w) = q ->
  closeall_loop q w = (Raise e, w') ->
  is_Exception e = false /\
  exists done conn,
    q = done ++ conn :: pool (self w') /\
    calls w' = calls w ++ map CallClose (done ++ [conn]) /\
    fst (drv_close conn (closed_all done (db w))) = inl e /\
    db w' = closed_all (done ++ [conn]) (db w).
Proof.
  induction q as [|conn rest IH]; intros w e w' Hq Hrun; simpl in Hrun.
  - discriminate.
  - rewrite invoke_eq in Hrun; simpl in Hrun.
    set (w1 := mkWorld (snd (drv_close conn (db w)))
                       (mkPool (maxsize (self w)) rest (size (self w))
                               (gets (self w)) (puts (self w)))
                       (calls w ++ [CallClose conn])) in *.
    assert (Hnext : closeall_loop rest w1 = (Raise e, w') ->
      is_Exception e = false /\
      exists done conn',
        conn :: rest = done ++ conn' :: pool (self w') /\
        calls w' = calls w ++ map CallClose (done ++ [conn']) /\
        fst (drv_close conn' (closed_all done (db w))) = inl e /\
        db w' = closed_all (done ++ [conn']) (db w)).
    { intros H. destruct (IH w1 e w' eq_refl H) as [He [done [conn' [Hd [Hc [Hr Hdb]]]]]].
      split; [exact He|]. exists (conn :: done), conn'.
      simpl. rewrite Hd at 1. rewrite Hc, Hdb. unfold w1; simpl.
      rewrite <- app_assoc. auto. }
    destruct (fst (drv_close conn (db w))) as [e0|[]] eqn:Hclose; auto.
    destruct (is_Exception e0) eqn:He; auto.
    inversion Hrun; subst. split; [exact He|].
    exists [], conn. simpl. auto.
Qed.

(** X4.  [closeall] lets through what [except Exception] does not catch.
    When it raises, the exception is no instance of [Exception] and came
    from the [close()] of one queued connection; that connection and those
    before it have left the queue and had [close()] called, the ones behind
    it are still queued and untouched. *)
Theorem closeall_interrupted (w : World S) e w' :
  closeall w = (Raise e, w') ->
  is_Exception e = false /\
  exists done conn,
    pool (self w) = done ++ conn :: pool (self w') /\
    calls w' = calls w ++ map CallClose (done ++ [conn]) /\
    fst (drv_close conn (closed_all done (db w))) = inl e /\
    db w' = closed_all (done ++ [conn]) (db w).
Proof.
  unfold closeall. apply closeall_loop_raise. reflexivity.
Qed.

(** ** Checkouts that never reach the unit of work *)

Lemma finally_level_raises {A} conn level (pending : result A) (w : World S) e s :
  drv_closed conn (db w) = false ->
  drv_set_isolation_level conn level (db w) = (inl e, s) ->
  finally_clause (Some conn) (Some level) pending w =
  (Raise e, mkWorld s (self w) (calls w ++ [CallSetIsolationLevel conn level])).
Proof.
  intros Hopen Hset. unfold finally_clause. rewrite Hopen. simpl.
  rewrite invoke_eq, Hset. reflexivity.
Qed.

(** X5.  When [set_isolation_level] raises [e] on entry, on a connection
    that stays open, the unit of work is not run: the scope rolls back and,
    the connection still being open, calls [set_isolation_level] with the
    same level a second time.  If that call returns, the connection goes
    back to the queue and [e] is raised; if it raises [e'], [e'] is raised
    in place of [e] and the connection is not put back. *)
Theorem level_failure_on_entry {A} (co : checkout A) (w0 : World S)
    conn w1 level e s1 s2 :
  get w0 = (Return conn, w1) ->
  level_of co = Some level ->
  drv_isolation_level conn (db w1) <> level ->
  drv_set_isolation_level conn level (db w1) = (inl e, s1) ->
  drv_closed conn s1 = false ->
  drv_rollback conn s1 = (inr tt, s2) ->
  drv_closed conn s2 = false ->
  run_checkout co w0 =
  match drv_set_isolation_level conn level s2 with
  | (inr _, s3) =>
      (Raise e,
       mkWorld s3
               (mkPool (maxsize (self w1)) (pool (self w1) ++ [conn]) (size (self w1))
                       (gets (self w1)) (puts (self w1) + 1))
               (calls w1 ++ [CallSetIsolationLevel conn level; CallRollback conn;
                             CallSetIsolationLevel conn level]))
  | (inl e', s3) =>
      (Raise e',
       mkWorld s3 (self w1)
               (calls w1 ++ [CallSetIsolationLevel conn level; CallRollback conn;
                             CallSetIsolationLevel conn level]))
  end.
Proof.
  intros Hget Hco Hdiff Hset Hopen1 Hrollback Hopen2.
  rewrite run_checkout_eq, Hget. cbv zeta.
  unfold requested_level. rewrite Hco.
  apply Z.eqb_neq in Hdiff. rewrite Hdiff.
  unfold bind. cbn [apply_level]. rewrite invoke_eq, Hset. cbn [fst snd].
  unfold except_clause. cbn [db]. rewrite Hopen1.
  unfold _rollback. rewrite invoke_eq. cbn [db self calls].
  rewrite Hrollback. cbn [fst snd].
  destruct (drv_set_isolation_level conn level s2) as [[e'|[]] s3] eqn:Hagain.
  - rewrite (finally_level_raises _ _ _ _ e' s3) by assumption.
    cbn [db self calls]. rewrite <- !app_assoc. reflexivity.
  - rewrite finally_returns; cbn [db self calls level_returns level_db level_calls].
    + rewrite Hagain. cbn [snd]. rewrite <- !app_assoc. reflexivity.
    + exact Hopen2.
    + rewrite Hagain. reflexivity.
Qed.

(** ** What the [finally:] clause can undo *)

(** X6.  An error in the [finally:] clause replaces a successful outcome.
    The unit of work returned and [commit()] returned on an open connection,
    but the [set_isolation_level] call that follows raises [e]: the
    checkout raises [e] although the transaction is committed, and the
    connection is not put back. *)
Theorem level_failure_after_commit {A} (co : checkout A) (w0 : World S)
    conn w1 w1' a w2 s level e s' :
  reaches co w0 conn w1 w1' (Return a) w2 ->
  drv_closed conn (db w2) = false ->
  drv_commit conn (db w2) = (inr tt, s) ->
  drv_closed conn s = false ->
  requested_level (level_of co) conn w1 = Some level ->
  drv_set_isolation_level conn level s = (inl e, s') ->
  run_checkout co w0 =
  (Raise e,
   mkWorld s' (self w2)
           (calls w2 ++ [CallCommit conn; CallSetIsolationLevel conn level])).
Proof.
  intros Hreach Hopen Hcommit Hopen' Hlevel Hset.
  rewrite (run_checkout_reaches _ _ _ _ _ _ _ Hreach), Hlevel.
  unfold else_clause. rewrite Hopen, invoke_eq, Hcommit. cbn [fst snd].
  rewrite (finally_level_raises _ _ _ _ e s') by assumption.
  cbn [db self calls]. rewrite <- app_assoc. reflexivity.
Qed.

(** X7.  An error in the [finally:] clause masks the caller's exception.
    The unit of work raised [e] and [rollback()] returned on an open
    connection, but the [set_isolation_level] call that follows raises
    [e']: the checkout raises [e'], not [e], and the connection is not put
    back. *)
Theorem level_failure_after_rollback {A} (co : checkout A) (w0 : World S)
    conn w1 w1' e w2 s level e' s' :
  reaches co w0 conn w1 w1' (Raise e) w2 ->
  drv_closed conn (db w2) = false ->
  drv_rollback conn (db w2) = (inr tt, s) ->
  drv_closed conn s = false ->
  requested_level (level_of co) conn w1 = Some level ->
  drv_set_isolation_level conn level s = (inl e', s') ->
  run_checkout co w0 =
  (Raise e',
   mkWorld s' (self w2)
           (calls w2 ++ [CallRollback conn; CallSetIsolationLevel conn level])).
Proof.
  intros Hreach Hopen Hrollback Hopen' Hlevel Hset.
  rewrite (run_checkout_reaches _ _ _ _ _ _ _ Hreach), Hlevel.
  unfold except_clause, _rollback. rewrite Hopen, invoke_eq, Hrollback.
  cbn [fst snd].
  rewrite (finally_level_raises _ _ _ _ e' s') by assumption.
  cbn [db self calls]. rewrite <- app_assoc. reflexivity.
Qed.

(** X8.  A connection found closed after [commit()] or after a [rollback()]
    that returned is dropped without another call: the outcome is that of
    [commit()], or the caller's exception after [rollback()], the queue and
    [puts] are untouched, and no isolation level is applied again. *)
Theorem connection_closed_by_transaction_call {A} (co : checkout A) (w0 : World S)
    conn w1 w1' r w2 :
  reaches co w0 conn w1 w1' r w2 ->
  drv_closed conn (db w2) = false ->
  match r with
  | Return a =>
      forall rc s, drv_commit conn (db w2) = (rc, s) ->
      drv_closed conn s = true ->
      run_checkout co w0 =
      (match rc with inl e => Raise e | inr _ => Return a end,
       mkWorld s (self w2) (calls w2 ++ [CallCommit conn]))
  | Raise e =>
      forall s, drv_rollback conn (db w2) = (inr tt, s) ->
      drv_closed conn s = true ->
      run_checkout co w0 =
      (Raise e, mkWorld s (self w2) (calls w2 ++ [CallRollback conn]))
  | Blocked => True
  end.
Proof.
  intros Hreach Hopen.
  rewrite (run_checkout_reaches _ _ _ _ _ _ _ Hreach).
  destruct r as [a|e|]; [| |exact I].
  - intros rc s Hcommit Hclosed. unfold else_clause.
    rewrite Hopen, invoke_eq, Hcommit. cbn [fst snd].
    destruct rc as [e|[]]; rewrite finally_closed by exact Hclosed; reflexivity.
  - intros s Hrollback Hclosed. unfold except_clause, _rollback.
    rewrite Hopen, invoke_eq, Hrollback. cbn [fst snd].
    rewrite finally_closed by exact Hclosed. reflexivity.
Qed.

(** ** Capacity *)

Lemma checkout_same_size {A} (co : checkout A) (w0 : World S) conn w1 w1' r w2 :
  reaches co w0 conn w1 w1' r w2 ->
  same_size w2 (snd (run_checkout co w0)).
Proof.
  intros Hreach. rewrite (run_checkout_reaches _ _ _ _ _ _ _ Hreach).
  destruct r as [a|e|].
  - apply else_same_size.
  - apply except_same_size.
  - split; reflexivity.
Qed.

(** X9.  A connection the scope gives up is never taken off [size].  After
    a checkout whose unit of work raised on a dead connection, [size] and
    [maxsize] are what the unit of work left, and the queue is empty: if the
    pool was at its ceiling, the next [get] blocks. *)
Theorem dead_connection_exhausts_pool {A} (co : checkout A) (w0 : World S)
    conn w1 w1' e w2 :
  reaches co w0 conn w1 w1' (Raise e) w2 ->
  drv_closed conn (db w2) = true ->
  close_raises_errors ->
  size (self (snd (run_checkout co w0))) = size (self w2) /\
  maxsize (self (snd (run_checkout co w0))) = maxsize (self w2) /\
  pool (self (snd (run_checkout co w0))) = [] /\
  (maxsize (self w2) <= size (self w2) ->
   fst (get (snd (run_checkout co w0))) = Blocked).
Proof.
  intros Hreach Hclosed Herr.
  destruct (checkout_same_size _ _ _ _ _ _ _ Hreach) as [Hsize Hmax].
  assert (Hpool : pool (self (snd (run_checkout co w0))) = []).
  { rewrite (run_checkout_reaches _ _ _ _ _ _ _ Hreach).
    rewrite (except_clause_closed _ _ _ _ Hclosed).
    destruct (closeall_returns w2 Herr) as [w' [Hrun [Hself _]]].
    rewrite Hrun. cbn [snd]. rewrite Hself. reflexivity. }
  repeat split; try assumption.
  intros Hfull. apply get_blocks_when_exhausted; [exact Hpool|].
  rewrite Hsize, Hmax. exact Hfull.
Qed.

End ScopeFacts.

(** * Properties of the query helpers *)

Section QueryFacts.

Context {S : Type} {drv : Driver S} {cur : Cursors S}.

Lemma call_cursor_eq {A} (method : S -> (exn + A) * S) (w : World S) :
  call_cursor method w =
  (match fst (method (db w)) with inl e => Raise e | inr a => Return a end,
   mkWorld (snd (method (db w))) (self w) (calls w)).
Proof.
  unfold call_cursor. destruct (method (db w)) as [r s]. reflexivity.
Qed.

(** A helper up to the end of [cursor.execute(...)]: the scope goes on with
    the rest of the block when the statement ran, and to its [except:]
    clause when it raised. *)
Lemma query_eq {A} (k : cursor_id -> M S A) args isolation_level kwargs
    (w0 : World S) conn w1 w1' c s1 rx s2 :
  get w0 = (Return conn, w1) ->
  apply_level conn (requested_level isolation_level conn w1) w1 = (Return tt, w1') ->
  drv_cursor conn kwargs (db w1') = (inr c, s1) ->
  cur_execute c args s1 = (rx, s2) ->
  cursor kwargs isolation_level
         (fun c => bind (call_cursor (cur_execute c args)) (fun _ => k c)) w0 =
  let iso := requested_level isolation_level conn w1 in
  let w := mkWorld s2 (self w1') (calls w1' ++ [CallCursor conn kwargs]) in
  match rx with
  | inl e => except_clause conn iso e w
  | inr _ =>
      match k c w with
      | (Return a, w2) => else_clause conn iso a w2
      | (Raise e, w2) => except_clause conn iso e w2
      | (Blocked, w2) => (Blocked, w2)
      end
  end.
Proof.
  intros Hget Hlevel Hcursor Hexecute. unfold cursor. rewrite Hget.
  cbv zeta. unfold bind at 1. rewrite Hlevel.
  unfold bind at 1. rewrite invoke_eq, Hcursor. cbn [fst snd].
  unfold bind at 1. rewrite call_cursor_eq. cbn [db self calls].
  rewrite Hexecute. cbn [fst snd].
  destruct rx as [e|[]]; reflexivity.
Qed.

Lemma fetchiter_loop_fetches (c : cursor_id) (batches : list (list row)) :
  forall (fuel : nat) (w : World S) s',
  fetches c (db w) batches s' ->
  (List.length batches < fuel)%nat ->
  fetchiter_loop fuel c w =
  (Return (List.concat batches), mkWorld s' (self w) (calls w)).
Proof.
  induction batches as [|items batches IH]; intros fuel w s' Hrun Hfuel;
    (destruct fuel as [|fuel]; [inversion Hfuel|]);
    inversion Hrun; subst; cbn [fetchiter_loop]; unfold bind at 1;
    rewrite call_cursor_eq.
  - match goal with H : cur_fetchmany _ _ = _ |- _ => rewrite H end.
    reflexivity.
  - match goal with H : cur_fetchmany _ _ = _ |- _ => rewrite H end.
    cbn [fst snd]. destruct items as [|item items]; [congruence|].
    unfold bind. rewrite (IH fuel _ s').
    + reflexivity.
    + assumption.
    + simpl in Hfuel. lia.
Qed.

(** X10.  [execute] on the happy path: the statement runs on a cursor of
    the acquired connection, [rowcount] is read before [commit()], the
    transaction is committed and the connection goes back to the idle
    queue; the value returned is that [rowcount]. *)
Theorem execute_returns_rowcount args isolation_level kwargs
    (w0 : World S) conn w1 w1' c s1 s2 s3 :
  get w0 = (Return conn, w1) ->
  apply_level conn (requested_level isolation_level conn w1) w1 = (Return tt, w1') ->
  drv_cursor conn kwargs (db w1') = (inr c, s1) ->
  cur_execute c args s1 = (inr tt, s2) ->
  drv_closed conn s2 = false ->
  drv_commit conn s2 = (inr tt, s3) ->
  drv_closed conn s3 = false ->
  level_returns conn (requested_level isolation_level conn w1) s3 ->
  execute args isolation_level kwargs w0 =
  (Return (cur_rowcount c s2),
   mkWorld (level_db conn (requested_level isolation_level conn w1) s3)
           (mkPool (maxsize (self w1')) (pool (self w1') ++ [conn]) (size (self w1'))
                   (gets (self w1')) (puts (self w1') + 1))
           (calls w1' ++ CallCursor conn kwargs :: CallCommit conn ::
              level_calls conn (requested_level isolation_level conn w1))).
Proof.
  intros Hget Hlevel Hcursor Hexecute Hopen Hcommit Hopen' Hreturns.
  unfold execute. rewrite (query_eq _ _ _ _ _ _ _ _ _ _ _ _ Hget Hlevel Hcursor Hexecute).
  cbv zeta. cbn [db].
  rewrite (else_clause_open _ _ _ _ (inr tt) s3) by assumption.
  unfold returned. cbn [db self calls]. rewrite <- app_assoc. reflexivity.
Qed.

(** X11.  A statement that fails is rolled back, in all four helpers
    alike: when [cursor.execute(...)] raises [e] and the connection is open
    before and after a [rollback()] that returns, the helper raises [e],
    nothing is fetched and nothing committed, and the connection goes back
    to the idle queue. *)
Theorem statement_failure_rolls_back args isolation_level kwargs
    (w0 : World S) conn w1 w1' c s1 e s2 s3 :
  get w0 = (Return conn, w1) ->
  apply_level conn (requested_level isolation_level conn w1) w1 = (Return tt, w1') ->
  drv_cursor conn kwargs (db w1') = (inr c, s1) ->
  cur_execute c args s1 = (inl e, s2) ->
  drv_closed conn s2 = false ->
  drv_rollback conn s2 = (inr tt, s3) ->
  drv_closed conn s3 = false ->
  level_returns conn (requested_level isolation_level conn w1) s3 ->
  let w' :=
    mkWorld (level_db conn (requested_level isolation_level conn w1) s3)
            (mkPool (maxsize (self w1')) (pool (self w1') ++ [conn]) (size (self w1'))
                    (gets (self w1')) (puts (self w1') + 1))
            (calls w1' ++ CallCursor conn kwargs :: CallRollback conn ::
               level_calls conn (requested_level isolation_level conn w1)) in
  execute args isolation_level kwargs w0 = (Raise e, w') /\
  fetchone args isolation_level kwargs w0 = (Raise e, w') /\
  fetchall args isolation_level kwargs w0 = (Raise e, w') /\
  (forall fuel, fetchiter fuel args isolation_level kwargs w0 = (Raise e, w')).
Proof.
  intros Hget Hlevel Hcursor Hexecute Hopen Hrollback Hopen' Hreturns w'.
  assert (Hall : forall A (k : cursor_id -> M S A),
            cursor kwargs isolation_level
                   (fun c => bind (call_cursor (cur_execute c args)) (fun _ => k c)) w0 =
            (Raise e, w')).
  { intros A k.
    rewrite (query_eq _ _ _ _ _ _ _ _ _ _ _ _ Hget Hlevel Hcursor Hexecute).
    cbv zeta.
    rewrite (except_clause_rolled_back _ _ _ _ s3) by assumption.
    unfold returned, w'. cbn [db self calls]. rewrite <- app_assoc. reflexivity. }
  repeat split; try intros fuel; apply Hall.
Qed.

(** X12.  [fetchiter], run to exhaustion, yields the rows of every batch
    in order.  The statement ran; [fetchmany()] then gives the non-empty
    [batches] followed by an empty one, and the fuel allows one call more
    than there are batches.  The items yielded are the batches put end to
    end, no [fetchmany()] is called after the empty batch, and the
    transaction is committed and the connection put back once the loop is
    over. *)
Theorem fetchiter_yields_every_batch fuel args isolation_level kwargs
    (w0 : World S) conn w1 w1' c s1 s2 batches s3 s4 :
  get w0 = (Return conn, w1) ->
  apply_level conn (requested_level isolation_level conn w1) w1 = (Return tt, w1') ->
  drv_cursor conn kwargs (db w1') = (inr c, s1) ->
  cur_execute c args s1 = (inr tt, s2) ->
  fetches c s2 batches s3 ->
  (List.length batches < fuel)%nat ->
  drv_closed conn s3 = false ->
  drv_commit conn s3 = (inr tt, s4) ->
  drv_closed conn s4 = false ->
  level_returns conn (requested_level isolation_level conn w1) s4 ->
  fetchiter fuel args isolation_level kwargs w0 =
  (Return (List.concat batches),
   mkWorld (level_db conn (requested_level isolation_level conn w1) s4)
           (mkPool (maxsize (self w1')) (pool (self w1') ++ [conn]) (size (self w1'))
                   (gets (self w1')) (puts (self w1') + 1))
           (calls w1' ++ CallCursor conn kwargs :: CallCommit conn ::
              level_calls conn (requested_level isolation_level conn w1))).
Proof.
  intros Hget Hlevel Hcursor Hexecute Hrun Hfuel Hopen Hcommit Hopen' Hreturns.
  unfold fetchiter.
  rewrite (query_eq _ _ _ _ _ _ _ _ _ _ _ _ Hget Hlevel Hcursor Hexecute).
  cbv zeta.
  rewrite (fetchiter_loop_fetches c batches fuel _ s3) by assumption.
  cbn [db self calls].
  rewrite (else_clause_open _ _ _ _ (inr tt) s4) by assumption.
  unfold returned. cbn [db self calls]. rewrite <- app_assoc. reflexivity.
Qed.

End QueryFacts.

(** * Properties of the wait callback *)

Section WaitFacts.

Context {S : Type} {io : Poller S}.

(** X13.  The callback returns once a poll answers [POLL_OK].  When the
    polls answer [POLL_READ] and [POLL_WRITE] states and then [POLL_OK],
    every wait returning, the callback returns after waiting once per state,
    for reading or for writing as the state says, on the connection's
    descriptor and with the timeout it was given; it does not poll again. *)
Theorem wait_callback_returns conn timeout (s : S) script waits s' :
  polls conn timeout s script waits s' ->
  forall fuel, (List.length script < fuel)%nat ->
  gevent_wait_callback fuel conn timeout s = Some (Ready, s', waits).
Proof.
  induction 1 as [s s' Hpoll
                 |s s1 fd s2 s3 script waits s' Hpoll Hfd Hwait Hrest IH
                 |s s1 fd s2 s3 script waits s' Hpoll Hfd Hwait Hrest IH];
    intros fuel Hfuel; (destruct fuel as [|fuel]; [inversion Hfuel|]);
    cbn [gevent_wait_callback]; rewrite Hpoll.
  - reflexivity.
  - cbn. rewrite Hfd, Hwait, IH by (simpl in Hfuel; lia). reflexivity.
  - cbn. rewrite Hfd, Hwait, IH by (simpl in Hfuel; lia). reflexivity.
Qed.

(** X14.  What the callback's outcomes mean.  If it returns, the polls
    answered read and write states and then [POLL_OK], and the waits made
    are exactly theirs.  If it raises the bad-result [OperationalError],
    the last poll answered a state that is none of [POLL_OK], [POLL_READ],
    [POLL_WRITE], and nothing was called after that poll.  Any other
    exception is one that [poll()], [fileno()] or a wait raised, and it
    ended the callback on the spot. *)
Theorem wait_callback_sound fuel : forall conn timeout (s : S) out s' waits,
  gevent_wait_callback fuel conn timeout s = Some (out, s', waits) ->
  match out with
  | Ready =>
      exists script,
        polls conn timeout s script waits s' /\ (List.length script < fuel)%nat
  | BadResult state =>
      state <> POLL_OK /\ state <> POLL_READ /\ state <> POLL_WRITE /\
      exists s0, conn_poll conn s0 = (inr state, s')
  | Failed e =>
      exists s0,
        conn_poll conn s0 = (inl e, s') \/
        conn_fileno conn s0 = (inl e, s') \/
        exists fd, wait_read fd timeout s0 = (inl e, s') \/
                   wait_write fd timeout s0 = (inl e, s')
  end.
Proof.
  induction fuel as [|fuel IH]; intros conn timeout s out s' waits Hrun;
    [discriminate|].
  cbn [gevent_wait_callback] in Hrun.
  destruct (conn_poll conn s) as [[e|state] s1] eqn:Hpoll.
  { inversion Hrun; subst. exists s. auto. }
  destruct (state =? POLL_OK) eqn:Hok.
  { apply Z.eqb_eq in Hok. inversion Hrun; subst.
    exists []. split; [constructor; exact Hpoll|simpl; lia]. }
  destruct (state =? POLL_READ) eqn:Hread.
  { apply Z.eqb_eq in Hread. subst state.
    destruct (conn_fileno conn s1) as [[e|fd] s2] eqn:Hfd.
    { inversion Hrun; subst. exists s1. auto. }
    destruct (wait_read fd timeout s2) as [[e|[]] s3] eqn:Hwait.
    { inversion Hrun; subst. exists s2. right. right. exists fd. auto. }
    destruct (gevent_wait_callback fuel conn timeout s3) as [[[out' s4] waits']|] eqn:Hrest;
      [|discriminate].
    inversion Hrun; subst. specialize (IH _ _ _ _ _ _ Hrest).
    destruct out as [|state|e]; try exact IH.
    destruct IH as [script [Hscript Hlen]].
    exists (POLL_READ :: script). split; [|simpl; lia].
    eapply polls_read; eassumption. }
  destruct (state =? POLL_WRITE) eqn:Hwrite.
  { apply Z.eqb_eq in Hwrite. subst state.
    destruct (conn_fileno conn s1) as [[e|fd] s2] eqn:Hfd.
    { inversion Hrun; subst. exists s1. auto. }
    destruct (wait_write fd timeout s2) as [[e|[]] s3] eqn:Hwait.
    { inversion Hrun; subst. exists s2. right. right. exists fd. auto. }
    destruct (gevent_wait_callback fuel conn timeout s3) as [[[out' s4] waits']|] eqn:Hrest;
      [|discriminate].
    inversion Hrun; subst. specialize (IH _ _ _ _ _ _ Hrest).
    destruct out as [|state|e]; try exact IH.
    destruct IH as [script [Hscript Hlen]].
    exists (POLL_WRITE :: script). split; [|simpl; lia].
    eapply polls_write; eassumption. }
  inversion Hrun; subst.
  apply Z.eqb_neq in Hok, Hread, Hwrite. repeat split; try assumption.
  exists s. exact Hpoll.
Qed.

End WaitFacts.

(** * What a checkout can and cannot do *)

Section ScopeSafety.

Context {S : Type} {drv : Driver S}.

(** The [finally:] clause: the pending outcome stands or an exception
    replaces it; the calls are [set_isolation_level] calls, if any; the
    queue is untouched or has gained the connection at its end. *)
Lemma finally_inv {A} conn iso (pending : result A) (w : World S) r w' :
  finally_clause conn iso pending w = (r, w') ->
  (r = pending \/ exists e, r = Raise e) /\
  (exists post,
     calls w' = calls w ++ post /\ forall c, ~ In (CallCommit c) post) /\
  (pool (self w') = pool (self w) \/
   exists c, conn = Some c /\ pool (self w') = pool (self w) ++ [c]).
Proof.
  unfold finally_clause. destruct conn as [c|].
  - destruct (negb (drv_closed c (db w))).
    + destruct (apply_level c iso w) as [rl wl] eqn:Hlevel.
      destruct (apply_level_inv _ _ _ _ _ Hlevel) as [Hself [Hcalls Hnb]].
      assert (Hno : forall c', ~ In (CallCommit c') (level_calls c iso)).
      { intros c'. destruct iso; simpl; [intros [H|[]]; discriminate|tauto]. }
      destruct rl as [[]|e|]; [| |congruence].
      * cbn. intros H; inversion H; subst. cbn [self calls pool].
        split; [left; reflexivity|]. split.
        -- exists (level_calls c iso). split; assumption.
        -- right. exists c. rewrite Hself. auto.
      * intros H; inversion H; subst.
        split; [right; eauto|]. split.
        -- exists (level_calls c iso). split; assumption.
        -- left. rewrite Hself. reflexivity.
    + intros H; inversion H; subst. split; [left; reflexivity|]. split.
      * exists []. rewrite app_nil_r. auto.
      * left; reflexivity.
  - intros H; inversion H; subst. split; [left; reflexivity|]. split.
    + exists []. rewrite app_nil_r. auto.
    + left; reflexivity.
Qed.

Lemma except_clause_inv {A} conn iso e (w : World S) (r : result A) w' :
  except_clause conn iso e w = (r, w') ->
  (forall a, r <> Return a) /\
  (exists post,
     calls w' = calls w ++ post /\ forall c, ~ In (CallCommit c) post) /\
  ((exists taken, pool (self w) = taken ++ pool (self w')) \/
   pool (self w') = pool (self w) ++ [conn]).
Proof.
  unfold except_clause. destruct (drv_closed conn (db w)).
  - destruct (closeall w) as [rc w1] eqn:Hrun.
    destruct (closeall_inv _ _ _ Hrun) as [_ [done [Hd [Hc [_ Hrc]]]]].
    assert (Hno : forall c, ~ In (CallCommit c) (map CallClose done)).
    { intros c Hin. apply in_map_iff in Hin. destruct Hin as [x [Hx _]].
      discriminate. }
    destruct rc as [[]|e'|]; [| |contradiction];
      (intros H; cbn [finally_clause] in H; inversion H; subst;
       split; [discriminate|];
       split; [exists (map CallClose done); split; assumption|];
       left; exists done; exact Hd).
  - unfold _rollback. rewrite invoke_eq.
    destruct (fst (drv_rollback conn (db w))) as [e'|[]] eqn:Hrollback.
    + cbn [handle_error finally_clause db self calls]. intros H; inversion H; subst.
      cbn [self calls pool]. split; [discriminate|]. split.
      * exists [CallRollback conn; CallHandleError conn e'].
        rewrite <- app_assoc. split; [reflexivity|].
        intros c [Hin|[Hin|[]]]; discriminate.
      * left. exists []. reflexivity.
    + intros H. destruct (finally_inv _ _ _ _ _ _ H) as [Hr [[post [Hc Hno]] Hq]].
      cbn [db self calls] in *. split.
      * intros a Ha. destruct Hr as [Hr|[e' Hr]]; congruence.
      * split.
        -- exists (CallRollback conn :: post). rewrite Hc, <- app_assoc.
           split; [reflexivity|].
           intros c [Hin|Hin]; [discriminate|exact (Hno c Hin)].
        -- destruct Hq as [Hq|[c [Hc' Hq]]].
           ++ left. exists []. rewrite Hq. reflexivity.
           ++ right. inversion Hc'; subst. exact Hq.
Qed.

Lemma else_clause_inv {A} conn iso (a : A) (w : World S) r w' :
  else_clause conn iso a w = (r, w') ->
  (forall b, r = Return b ->
     b = a /\ drv_closed conn (db w) = false /\
     fst (drv_commit conn (db w)) = inr tt /\
     exists post, calls w' = calls w ++ CallCommit conn :: post) /\
  (pool (self w') = pool (self w) \/ pool (self w') = pool (self w) ++ [conn]).
Proof.
  unfold else_clause. destruct (drv_closed conn (db w)) eqn:Hclosed.
  - rewrite finally_closed by exact Hclosed. intros H; inversion H; subst.
    split; [intros b Hb; discriminate|left; reflexivity].
  - rewrite invoke_eq.
    destruct (fst (drv_commit conn (db w))) as [e|[]] eqn:Hcommit;
      intros H; destruct (finally_inv _ _ _ _ _ _ H) as [Hr [[post [Hc _]] Hq]];
      cbn [db self calls] in *.
    + split.
      * intros b Hb. destruct Hr as [Hr|[e' Hr]]; congruence.
      * destruct Hq as [Hq|[c [Hc' Hq]]]; [left|right; inversion Hc'; subst]; exact Hq.
    + split.
      * intros b Hb. destruct Hr as [Hr|[e' Hr]]; [|congruence].
        rewrite Hr in Hb. inversion Hb; subst.
        repeat split. exists post. rewrite Hc, <- app_assoc. reflexivity.
      * destruct Hq as [Hq|[c [Hc' Hq]]]; [left|right; inversion Hc'; subst]; exact Hq.
Qed.

(** X15.  A checkout returns only after a [commit()] that returned.  If
    the [with] statement ends normally with [a], the unit of work returned
    [a], the connection was open when the unit of work ended, and the scope
    then called [commit()] on it, which returned. *)
Theorem success_means_committed {A} (co : checkout A) (w0 : World S)
    conn w1 w1' r w2 a w' :
  reaches co w0 conn w1 w1' r w2 ->
  run_checkout co w0 = (Return a, w') ->
  r = Return a /\
  drv_closed conn (db w2) = false /\
  fst (drv_commit conn (db w2)) = inr tt /\
  exists post, calls w' = calls w2 ++ CallCommit conn :: post.
Proof.
  intros Hreach Hrun.
  rewrite (run_checkout_reaches _ _ _ _ _ _ _ Hreach) in Hrun.
  destruct r as [b|e|].
  - destruct (else_clause_inv _ _ _ _ _ _ Hrun) as [Hret _].
    destruct (Hret a eq_refl) as [Hab [Hopen [Hcommit Hcalls]]].
    subst b. auto.
  - destruct (except_clause_inv _ _ _ _ _ _ Hrun) as [Hnot _].
    exfalso. exact (Hnot a eq_refl).
  - discriminate.
Qed.

(** X16.  A unit of work that raised is never committed: the checkout does
    not end normally, and none of the calls the scope makes after the unit
    of work is a [commit()], on any connection. *)
Theorem failed_work_never_commits {A} (co : checkout A) (w0 : World S)
    conn w1 w1' e w2 :
  reaches co w0 conn w1 w1' (Raise e) w2 ->
  (forall a, fst (run_checkout co w0) <> Return a) /\
  exists post,
    calls (snd (run_checkout co w0)) = calls w2 ++ post /\
    forall c, ~ In (CallCommit c) post.
Proof.
  intros Hreach.
  rewrite (run_checkout_reaches _ _ _ _ _ _ _ Hreach).
  destruct (except_clause conn (requested_level (level_of co) conn w1) e w2)
    as [r w'] eqn:Hrun.
  destruct (except_clause_inv _ _ _ _ _ _ Hrun) as [Hnot [Hcalls _]].
  split; [exact Hnot|exact Hcalls].
Qed.

(** X17.  A checkout makes no connection idle twice.  If, when the unit
    of work ends, the idle queue holds no connection twice and does not
    hold the one checked out, then the queue holds no connection twice when
    the checkout is over: the scope at most appends its own connection,
    once, or takes connections off the front. *)
Theorem checkout_keeps_queue_distinct {A} (co : checkout A) (w0 : World S)
    conn w1 w1' r w2 :
  reaches co w0 conn w1 w1' r w2 ->
  NoDup (pool (self w2)) ->
  ~ In conn (pool (self w2)) ->
  NoDup (pool (self (snd (run_checkout co w0)))).
Proof.
  intros Hreach Hnodup Hnotin.
  rewrite (run_checkout_reaches _ _ _ _ _ _ _ Hreach).
  assert (Happ : NoDup (pool (self w2) ++ [conn])).
  { apply NoDup_app; [exact Hnodup|repeat constructor; simpl; tauto|].
    intros x Hx [Hin|[]]. subst x. exact (Hnotin Hx). }
  destruct r as [a|e|].
  - destruct (else_clause conn (requested_level (level_of co) conn w1) a w2)
      as [r w'] eqn:Hrun.
    destruct (else_clause_inv _ _ _ _ _ _ Hrun) as [_ [Hq|Hq]];
      cbn [snd]; rewrite Hq; assumption.
  - destruct (except_clause conn (requested_level (level_of co) conn w1) e w2)
      as [r w'] eqn:Hrun.
    destruct (except_clause_inv _ _ _ _ _ _ Hrun) as [_ [_ [[taken Hq]|Hq]]];
      cbn [snd].
    + rewrite Hq in Hnodup. apply NoDup_app_remove_l in Hnodup. exact Hnodup.
    + rewrite Hq. exact Happ.
  - exact Hnodup.
Qed.

End ScopeSafety.

(** * The further properties on concrete runs *)

(** X3 on a run: three idle connections in a pool of at most three. *)
Lemma closeall_frees_no_capacity_witness :
  maxsize (self Fake.three_idle) <= size (self Fake.three_idle) /\
  fst (get (snd (closeall Fake.three_idle))) = Blocked.
Proof.
  assert (Hfull : maxsize (self Fake.three_idle) <= size (self Fake.three_idle))
    by (simpl; lia).
  split; [exact Hfull|].
  exact (closeall_frees_no_capacity Fake.three_idle fake_close_raises_errors Hfull).
Defined.

(** X4 on a run: three idle connections, the [close()] of connection 1
    interrupted. *)
Lemma closeall_interrupted_witness :
  let w := mkWorld (Scripted.mkState false 1 [] false false true)
                   (mkPool 3 [0%nat; 1%nat; 2%nat] 3 0 0) [] in
  let w' := mkWorld (Scripted.mkState false 1 [] false false true)
                    (mkPool 3 [2%nat] 3 0 0) [CallClose 0%nat; CallClose 1%nat] in
  closeall w = (Raise (Exit 0), w') /\
  is_Exception (Exit 0) = false /\
  exists done conn,
    pool (self w) = done ++ conn :: pool (self w') /\
    calls w' = calls w ++ map CallClose (done ++ [conn]).
Proof.
  intros w w'.
  assert (Hrun : closeall w = (Raise (Exit 0), w')) by reflexivity.
  split; [exact Hrun|].
  destruct (closeall_interrupted w (Exit 0) w' Hrun)
    as [He [done [conn [Hq [Hc _]]]]].
  split; [exact He|]. exists done, conn. split; assumption.
Defined.

(** X5 on a run: the first [set_isolation_level] call raises, the second
    returns. *)
Lemma level_failure_on_entry_witness :
  let s := Scripted.mkState false 1 [true; false] false false false in
  let co := ViaConnection (Some 3) (fun _ : conn_id => @ret Scripted.state unit tt) in
  let w1 := snd (get (Scripted.world s)) in
  let s1 := snd (drv_set_isolation_level 0%nat 3 (db w1)) in
  drv_set_isolation_level 0%nat 3 (db w1) = (inl (Error 1), s1) /\
  drv_rollback 0%nat s1 = (inr tt, s1) /\
  fst (run_checkout co (Scripted.world s)) = Raise (Error 1) /\
  pool (self (snd (run_checkout co (Scripted.world s)))) = [0%nat] /\
  calls (snd (run_checkout co (Scripted.world s))) =
    [CallSetIsolationLevel 0%nat 3; CallRollback 0%nat; CallSetIsolationLevel 0%nat 3].
Proof.
  intros s co w1 s1.
  split; [reflexivity|]. split; [reflexivity|].
  rewrite (level_failure_on_entry co (Scripted.world s) 0%nat w1 3 (Error 1) s1 s1).
  - repeat split.
  - reflexivity.
  - reflexivity.
  - simpl. lia.
  - reflexivity.
  - reflexivity.
  - reflexivity.
  - reflexivity.
Defined.

(** X6 on a run: the [set_isolation_level] call of the [finally:] clause
    raises after a [commit()] that returned. *)
Lemma level_failure_after_commit_witness :
  let s := Scripted.mkState false 1 [false; true] false false false in
  let co := ViaConnection (Some 3) (fun _ : conn_id => @ret Scripted.state unit tt) in
  let w1 := snd (get (Scripted.world s)) in
  let w1' := snd (apply_level 0%nat (Some 3) w1) in
  reaches co (Scripted.world s) 0%nat w1 w1' (Return tt) w1' /\
  drv_commit 0%nat (db w1') = (inr tt, db w1') /\
  fst (run_checkout co (Scripted.world s)) = Raise (Error 1) /\
  pool (self (snd (run_checkout co (Scripted.world s)))) = [] /\
  calls (snd (run_checkout co (Scripted.world s))) =
    [CallSetIsolationLevel 0%nat 3; CallCommit 0%nat; CallSetIsolationLevel 0%nat 3].
Proof.
  intros s co w1 w1'.
  assert (Hreach : reaches co (Scripted.world s) 0%nat w1 w1' (Return tt) w1')
    by (repeat split).
  split; [exact Hreach|]. split; [reflexivity|].
  rewrite (level_failure_after_commit co (Scripted.world s) 0%nat w1 w1' tt w1'
             (db w1') 3 (Error 1)
             (snd (drv_set_isolation_level 0%nat 3 (db w1'))) Hreach).
  - repeat split.
  - reflexivity.
  - reflexivity.
  - reflexivity.
  - reflexivity.
  - reflexivity.
Defined.

(** X7 on a run: the body raises [Error 42], [rollback()] returns and the
    [set_isolation_level] call of the [finally:] clause raises [Error 1]. *)
Lemma level_failure_after_rollback_witness :
  let s := Scripted.mkState false 1 [false; true] false false false in
  let co := ViaConnection (Some 3)
              (fun (_ : conn_id) (w : World Scripted.state) => (@Raise unit (Error 42), w)) in
  let w1 := snd (get (Scripted.world s)) in
  let w1' := snd (apply_level 0%nat (Some 3) w1) in
  reaches co (Scripted.world s) 0%nat w1 w1' (Raise (Error 42)) w1' /\
  drv_rollback 0%nat (db w1') = (inr tt, db w1') /\
  fst (run_checkout co (Scripted.world s)) = Raise (Error 1) /\
  pool (self (snd (run_checkout co (Scripted.world s)))) = [].
Proof.
  intros s co w1 w1'.
  assert (Hreach : reaches co (Scripted.world s) 0%nat w1 w1' (Raise (Error 42)) w1')
    by (repeat split).
  split; [exact Hreach|]. split; [reflexivity|].
  rewrite (level_failure_after_rollback co (Scripted.world s) 0%nat w1 w1' (Error 42) w1'
             (db w1') 3 (Error 1)
             (snd (drv_set_isolation_level 0%nat 3 (db w1'))) Hreach).
  - repeat split.
  - reflexivity.
  - reflexivity.
  - reflexivity.
  - reflexivity.
  - reflexivity.
Defined.

(** X8 on a run: [commit()] returns but leaves the connection closed. *)
Lemma connection_closed_by_transaction_call_witness :
  let s := Scripted.mkState false 1 [] true false false in
  let s' := Scripted.mkState true 1 [] true false false in
  let co := ViaConnection None (fun _ : conn_id => @ret Scripted.state unit tt) in
  let w1 := snd (get (Scripted.world s)) in
  reaches co (Scripted.world s) 0%nat w1 w1 (Return tt) w1 /\
  drv_closed 0%nat (db w1) = false /\
  drv_commit 0%nat (db w1) = (inr tt, s') /\
  drv_closed 0%nat s' = true /\
  run_checkout co (Scripted.world s) =
  (Return tt, mkWorld s' (self w1) (calls w1 ++ [CallCommit 0%nat])).
Proof.
  intros s s' co w1.
  assert (Hreach : reaches co (Scripted.world s) 0%nat w1 w1 (Return tt) w1)
    by (repeat split).
  assert (Hopen : drv_closed 0%nat (db w1) = false) by reflexivity.
  split; [exact Hreach|]. split; [exact Hopen|].
  split; [reflexivity|]. split; [reflexivity|].
  exact (connection_closed_by_transaction_call co (Scripted.world s) 0%nat w1 w1
           (Return tt) w1 Hreach Hopen (inr tt) s' eq_refl eq_refl).
Defined.

(** X9 on a run: connection 0 dies under a body that raises, in a pool of
    at most three with all three created. *)
Lemma dead_connection_exhausts_pool_witness :
  let co := ViaConnection None Fake.work_fails_dropped in
  let w1 := snd (get Fake.three_idle) in
  let w2 := Fake.drop 0%nat w1 in
  reaches co Fake.three_idle 0%nat w1 w1 (Raise (Error 42)) w2 /\
  drv_closed 0%nat (db w2) = true /\
  maxsize (self w2) <= size (self w2) /\
  size (self (snd (run_checkout co Fake.three_idle))) = 3 /\
  fst (get (snd (run_checkout co Fake.three_idle))) = Blocked.
Proof.
  intros co w1 w2.
  assert (Hreach : reaches co Fake.three_idle 0%nat w1 w1 (Raise (Error 42)) w2)
    by (repeat split).
  assert (Hfull : maxsize (self w2) <= size (self w2)) by (simpl; lia).
  split; [exact Hreach|]. split; [reflexivity|]. split; [exact Hfull|].
  destruct (dead_connection_exhausts_pool co Fake.three_idle 0%nat w1 w1 (Error 42) w2
              Hreach eq_refl fake_close_raises_errors)
    as [Hsize [_ [_ Hblocks]]].
  split; [rewrite Hsize; reflexivity|exact (Hblocks Hfull)].
Defined.

(** X10 on a run: a statement on the five-row result set. *)
Lemma execute_returns_rowcount_witness :
  let w0 := FakeSql.world false in
  let w1 := snd (get w0) in
  drv_cursor 0%nat [] (db w1) = (inr 0%nat, db w1) /\
  cur_execute 0%nat [PyStr "select 1"] (db w1) = (inr tt, db w1) /\
  drv_commit 0%nat (db w1) = (inr tt, db w1) /\
  fst (execute [PyStr "select 1"] None [] w0) = Return 5 /\
  pool (self (snd (execute [PyStr "select 1"] None [] w0))) = [0%nat].
Proof.
  intros w0 w1.
  split; [reflexivity|]. split; [reflexivity|]. split; [reflexivity|].
  rewrite (execute_returns_rowcount [PyStr "select 1"] None [] w0 0%nat w1 w1
             0%nat (db w1) (db w1) (db w1)).
  - split; reflexivity.
  - reflexivity.
  - reflexivity.
  - reflexivity.
  - reflexivity.
  - reflexivity.
  - reflexivity.
  - reflexivity.
  - exact I.
Defined.

(** X11 on a run: the statement fails. *)
Lemma statement_failure_rolls_back_witness :
  let w0 := FakeSql.world true in
  let w1 := snd (get w0) in
  cur_execute 0%nat [PyStr "select 1"] (db w1) = (inl (Error 6), db w1) /\
  drv_rollback 0%nat (db w1) = (inr tt, db w1) /\
  fst (execute [PyStr "select 1"] None [] w0) = Raise (Error 6) /\
  fst (fetchiter 0 [PyStr "select 1"] None [] w0) = Raise (Error 6) /\
  calls (snd (fetchall [PyStr "select 1"] None [] w0)) =
    [CallCursor 0%nat []; CallRollback 0%nat] /\
  pool (self (snd (fetchone [PyStr "select 1"] None [] w0))) = [0%nat].
Proof.
  intros w0 w1. split; [reflexivity|]. split; [reflexivity|].
  destruct (statement_failure_rolls_back [PyStr "select 1"] None [] w0 0%nat w1 w1
              0%nat (db w1) (Error 6) (db w1) (db w1))
    as [Hexecute [Hone [Hall Hiter]]];
    [reflexivity|reflexivity|reflexivity|reflexivity|reflexivity|reflexivity
    |reflexivity|exact I|].
  rewrite Hexecute, Hone, Hall, (Hiter 0%nat). repeat split.
Defined.

(** X12 on a run: rows 1 to 5 fetched in batches of two. *)
Lemma fetchiter_yields_every_batch_witness :
  let w0 := FakeSql.world false in
  let w1 := snd (get w0) in
  let s3 := FakeSql.mkState (Fake.mkState [Fake.fresh] false) [] false in
  fetches 0%nat (db w1) FakeSql.five_rows s3 /\
  (List.length FakeSql.five_rows < 4)%nat /\
  fst (fetchiter 4 [PyStr "select 1"] None [] w0) =
    Return [[PyInt 1]; [PyInt 2]; [PyInt 3]; [PyInt 4]; [PyInt 5]] /\
  pool (self (snd (fetchiter 4 [PyStr "select 1"] None [] w0))) = [0%nat].
Proof.
  intros w0 w1 s3.
  assert (Hrun : fetches 0%nat (db w1) FakeSql.five_rows s3).
  { unfold FakeSql.five_rows.
    eapply fetches_batch; [reflexivity|discriminate|].
    eapply fetches_batch; [reflexivity|discriminate|].
    eapply fetches_batch; [reflexivity|discriminate|].
    apply fetches_end. reflexivity. }
  assert (Hfuel : (List.length FakeSql.five_rows < 4)%nat) by (simpl; lia).
  split; [exact Hrun|]. split; [exact Hfuel|].
  rewrite (fetchiter_yields_every_batch 4 [PyStr "select 1"] None [] w0 0%nat w1 w1
             0%nat (db w1) (db w1) FakeSql.five_rows s3 s3).
  - split; reflexivity.
  - reflexivity.
  - reflexivity.
  - reflexivity.
  - reflexivity.
  - exact Hrun.
  - exact Hfuel.
  - reflexivity.
  - reflexivity.
  - reflexivity.
  - exact I.
Defined.

(** X13 on a run: a poll that wants to read, one that wants to write, then
    [POLL_OK]. *)
Lemma wait_callback_returns_witness :
  polls 0%nat PyNone [POLL_READ; POLL_WRITE] [POLL_READ; POLL_WRITE]
        [WaitRead 7 PyNone; WaitWrite 7 PyNone] [] /\
  gevent_wait_callback 3 0%nat PyNone [POLL_READ; POLL_WRITE] =
  Some (Ready, [], [WaitRead 7 PyNone; WaitWrite 7 PyNone]).
Proof.
  assert (Hrun : polls 0%nat PyNone [POLL_READ; POLL_WRITE] [POLL_READ; POLL_WRITE]
                       [WaitRead 7 PyNone; WaitWrite 7 PyNone] []).
  { eapply polls_read; [reflexivity|reflexivity|reflexivity|].
    eapply polls_write; [reflexivity|reflexivity|reflexivity|].
    apply polls_ok. reflexivity. }
  split; [exact Hrun|].
  apply (wait_callback_returns _ _ _ _ _ _ Hrun). simpl. lia.
Defined.

(** X14 on a run: a poll that wants to read, then one that answers 5. *)
Lemma wait_callback_sound_witness :
  gevent_wait_callback 4 0%nat PyNone [POLL_READ; 5] =
    Some (BadResult 5, [], [WaitRead 7 PyNone]) /\
  5 <> POLL_OK /\ 5 <> POLL_READ /\ 5 <> POLL_WRITE.
Proof.
  assert (Hrun : gevent_wait_callback 4 0%nat PyNone [POLL_READ; 5] =
                 Some (BadResult 5, [], [WaitRead 7 PyNone])) by reflexivity.
  split; [exact Hrun|].
  destruct (wait_callback_sound _ _ _ _ _ _ _ Hrun) as [Hok [Hread [Hwrite _]]].
  repeat split; assumption.
Defined.

(** X15 on a run: a checkout of the idle connection 0 that returns. *)
Lemma success_means_committed_witness :
  let co := ViaConnection None Fake.work_ok in
  let w1 := snd (get Fake.one_idle) in
  let w' := snd (run_checkout co Fake.one_idle) in
  reaches co Fake.one_idle 0%nat w1 w1 (Return tt) w1 /\
  run_checkout co Fake.one_idle = (Return tt, w') /\
  fst (drv_commit 0%nat (db w1)) = inr tt /\
  exists post, calls w' = calls w1 ++ CallCommit 0%nat :: post.
Proof.
  intros co w1 w'.
  assert (Hreach : reaches co Fake.one_idle 0%nat w1 w1 (Return tt) w1)
    by (repeat split).
  assert (Hrun : run_checkout co Fake.one_idle = (Return tt, w')) by reflexivity.
  split; [exact Hreach|]. split; [exact Hrun|].
  destruct (success_means_committed co Fake.one_idle 0%nat w1 w1 (Return tt) w1 tt w'
              Hreach Hrun) as [_ [_ [Hcommit Hcalls]]].
  split; assumption.
Defined.

(** X16 on a run: a checkout of the idle connection 0 whose body raises. *)
Lemma failed_work_never_commits_witness :
  let co := ViaConnection None Fake.work_fails in
  let w1 := snd (get Fake.one_idle) in
  reaches co Fake.one_idle 0%nat w1 w1 (Raise (Error 42)) w1 /\
  fst (run_checkout co Fake.one_idle) <> Return tt /\
  exists post,
    calls (snd (run_checkout co Fake.one_idle)) = calls w1 ++ post /\
    ~ In (CallCommit 0%nat) post.
Proof.
  intros co w1.
  assert (Hreach : reaches co Fake.one_idle 0%nat w1 w1 (Raise (Error 42)) w1)
    by (repeat split).
  split; [exact Hreach|].
  destruct (failed_work_never_commits co Fake.one_idle 0%nat w1 w1 (Error 42) w1 Hreach)
    as [Hnot [post [Hcalls Hno]]].
  split; [exact (Hnot tt)|]. exists post. split; [exact Hcalls|exact (Hno 0%nat)].
Defined.

(** X17 on a run: connection 0 checked out and returned behind the idle
    connections 1 and 2. *)
Lemma checkout_keeps_queue_distinct_witness :
  let co := ViaConnection None Fake.work_ok in
  let w1 := snd (get Fake.three_idle) in
  reaches co Fake.three_idle 0%nat w1 w1 (Return tt) w1 /\
  NoDup (pool (self w1)) /\
  ~ In 0%nat (pool (self w1)) /\
  pool (self (snd (run_checkout co Fake.three_idle))) = [1%nat; 2%nat; 0%nat] /\
  NoDup (pool (self (snd (run_checkout co Fake.three_idle)))).
Proof.
  intros co w1.
  assert (Hreach : reaches co Fake.three_idle 0%nat w1 w1 (Return tt) w1)
    by (repeat split).
  assert (Hnodup : NoDup (pool (self w1))).
  { simpl. repeat constructor; simpl; intuition discriminate. }
  assert (Hnotin : ~ In 0%nat (pool (self w1))).
  { simpl. intuition discriminate. }
  split; [exact Hreach|]. split; [exact Hnodup|]. split; [exact Hnotin|].
  split; [reflexivity|].
  exact (checkout_keeps_queue_distinct co Fake.three_idle 0%nat w1 w1 (Return tt) w1
           Hreach Hnodup Hnotin).
Defined.
